(** * generic-autoscaler: the policy engine, the safety manager and the reconciler

    A shallow embedding of [src/generic_autoscaler/controller.py].

    Conventions of the embedding.
    - Python [int] is [Z].  Python [float] is read as an exact rational [Q]:
      the arithmetic of the controller is modelled without rounding error,
      [int(x)] of a float is truncation toward zero, and a division whose
      divisor is zero raises [ZeroDivisionError].  Infinities and NaN do not
      arise in this arithmetic.
    - Python [str] is [string]; a character is its code point (below 256).
    - The dictionaries read with [.get(key, default)] are records whose
      fields are [option]s; the cooldown ledger, a [Dict[str, float]] that is
      mutated in place, is a [gmap string Q].
    - Line 93 of the source lacks the colon of its [if] header.  The
      functions are embedded from the text with that colon in place;
      [compile_controller] records what the interpreter makes of the line as
      it stands.
    - Exceptions are the [Raise] results of an error monad; the reconciler,
      which reads the clock, talks to the orchestrator and mutates the
      ledger, runs in a state-and-error monad over an explicit world. *)

From Stdlib Require Import ZArith QArith Qround Lqa Ascii String List Lia.
From stdpp Require Import gmap strings list fin_maps.

Local Open Scope Z_scope.

(** ** Exceptions and results *)

Inductive exn : Type :=
  | SyntaxError
  | ZeroDivisionError
  | ValueError
  | IndexError
  | ApiException (status : Z)
  | OtherException.

Inductive result (A : Type) : Type :=
  | Ok (a : A)
  | Raise (e : exn).

Arguments Ok {A} a.
Arguments Raise {A} e.

Definition rbind {A B : Type} (r : result A) (k : A -> result B) : result B :=
  match r with
  | Ok a => k a
  | Raise e => Raise e
  end.

Notation "'let*' x ':=' e 'in' k" := (rbind e (fun x => k))
  (at level 10, x name, e at level 100, k at level 200).

(** [d.get(key, default)] on a field that may be absent. *)
Definition get {A : Type} (field : option A) (dflt : A) : A :=
  match field with
  | Some v => v
  | None => dflt
  end.

(** ** Numbers *)

Definition Qlt_bool (x y : Q) : bool := negb (Qle_bool y x).

(** [int(x)] for a float [x]: the integer part, rounding toward zero. *)
Definition int_of_float (x : Q) : Z := Z.quot (Qnum x) (Zpos (Qden x)).

(** [x / y] on floats (or on a float and an int). *)
Definition truediv (x y : Q) : result Q :=
  if Qeq_bool y 0 then Raise ZeroDivisionError else Ok (x / y)%Q.

(** [sum(metrics)]: left to right, starting from [0]. *)
Definition fsum (metrics : list Q) : Q := fold_left Qplus metrics 0%Q.

(** [len(metrics)] *)
Definition len {A : Type} (l : list A) : Z := Z.of_nat (length l).

(** [sum(metrics) / len(metrics) if metrics else 0] *)
Definition current_metric_of (metrics : list Q) : result Q :=
  match metrics with
  | [] => Ok 0%Q
  | _ :: _ => truediv (fsum metrics) (inject_Z (len metrics))
  end.

(** ** Configuration dictionaries *)

(** [spec.policy] *)
Record PolicyConfig : Type := {
  type : option string;
  sloTarget : option Q;
  maxCostPerReplica : option Q
}.

(** [spec.safety] *)
Record SafetyConfig : Type := {
  maxScaleRate : option Z;
  scaleUpCooldown : option string;
  scaleDownCooldown : option string
}.

(** The [config] of an entry of [spec.metrics]: the keys the plugins read. *)
Record PluginConfig : Type := {
  query : option string;
  host : option string;
  queue_name : option string
}.

(** An entry of [spec.metrics]. *)
Record MetricConfig : Type := {
  plugin : option string;
  config : option PluginConfig
}.

Record TargetRef : Type := {
  target_name : option string
}.

(** [spec], which the reconciler also hands to the policy engine as
    [scaler_config]. *)
Record ScalerConfig : Type := {
  targetRef : option TargetRef;
  minReplicas : option Z;
  maxReplicas : option Z;
  metrics : option (list MetricConfig);
  policy : option PolicyConfig;
  safety : option SafetyConfig
}.

(** ** PolicyEngine *)

Definition _slo_based_scaling (current_replicas : Z) (metrics : list Q)
    (policy_config : PolicyConfig) (scaler_config : ScalerConfig) : result Z :=
  let target := get (sloTarget policy_config) 80%Q in
  let* current_metric := current_metric_of metrics in
  let* ratio := (if Qlt_bool 0 target then truediv current_metric target else Ok 1%Q) in
  let desired := int_of_float (inject_Z current_replicas * ratio) in
  let min_replicas := get (minReplicas scaler_config) 1 in
  let max_replicas := get (maxReplicas scaler_config) 10 in
  let desired := Z.max min_replicas (Z.min max_replicas desired) in
  Ok desired.

(** The cost policy.  Line 93 of the source, the header of the conditional
    that rounds the quotient up, is written without its colon; the body is
    embedded with the statement read as the [if] its indented successor
    (line 94) belongs to.  What the interpreter makes of the line as it is
    written is [compile_controller] below. *)
Definition _cost_aware_scaling (current_replicas : Z) (metrics : list Q)
    (policy_config : PolicyConfig) (scaler_config : ScalerConfig) : result Z :=
  let max_cost := get (maxCostPerReplica policy_config) 5%Q in
  let* current_metric := current_metric_of metrics in
  let* cost_per_replica :=
    (if 0 <? current_replicas
     then truediv current_metric (inject_Z current_replicas)
     else Ok 0%Q) in
  let max_replicas := get (maxReplicas scaler_config) 10 in
  if Qlt_bool max_cost cost_per_replica then
    let* q := truediv current_metric max_cost in
    let desired_by_ratio := int_of_float q in
    let* q' := truediv current_metric max_cost in
    let desired_by_ratio :=
      if Qlt_bool (inject_Z desired_by_ratio) q'
      then desired_by_ratio + 1
      else desired_by_ratio in
    let final_desired := Z.min desired_by_ratio max_replicas in
    Ok final_desired
  else if Qlt_bool cost_per_replica (max_cost * 0.5) then
    let* q := truediv current_metric (max_cost * 0.8) in
    let desired_by_ratio := int_of_float q in
    let min_replicas := get (minReplicas scaler_config) 1 in
    Ok (Z.max desired_by_ratio min_replicas)
  else
    Ok current_replicas.

Definition calculate_desired_replicas (current_replicas : Z) (metrics : list Q)
    (policy_config : PolicyConfig) (scaler_config : ScalerConfig) : result Z :=
  let policy_type := get (type policy_config) "slo"%string in
  if String.eqb policy_type "slo" then
    _slo_based_scaling current_replicas metrics policy_config scaler_config
  else if String.eqb policy_type "cost" then
    _cost_aware_scaling current_replicas metrics policy_config scaler_config
  else
    Ok current_replicas.

(** *** The module as the interpreter reads it *)

(** Line 93 of [controller.py], without its indentation. *)
Definition line_93 : string :=
  "if (current_metric / max_cost) > desired_by_ratio".

(** The last character of a line, if it has one. *)
Fixpoint last_char (s : string) : option ascii :=
  match s with
  | EmptyString => None
  | String c EmptyString => Some c
  | String _ rest => last_char rest
  end.

(** The header of an [if] statement ends with a colon; Python's grammar has
    no production for one that does not, and the compiler rejects the whole
    module with [SyntaxError]. *)
Definition if_header_closed (line : string) : bool :=
  match last_char line with
  | Some c => Ascii.eqb c ":"
  | None => false
  end.

Definition compile_controller : result unit :=
  if if_header_closed line_93 then Ok tt else Raise SyntaxError.

(** A call of the policy engine through the module as it is written: the
    module is compiled first. *)
Definition calculate_desired_replicas_as_written (current_replicas : Z)
    (metrics : list Q) (policy_config : PolicyConfig)
    (scaler_config : ScalerConfig) : result Z :=
  let* _ := compile_controller in
  calculate_desired_replicas current_replicas metrics policy_config scaler_config.


(** ** Strings and [int(str)] *)

Definition code (c : ascii) : Z := Z.of_N (N_of_ascii c).

Definition is_digit (c : ascii) : bool := (48 <=? code c) && (code c <=? 57).

Definition digit_value (c : ascii) : Z := code c - 48.

(** The characters [int] skips around a literal: tab, line feed, vertical
    tab, form feed, carriage return, space and, outside ASCII, U+0085 and
    U+00A0. *)
Definition is_space (c : ascii) : bool :=
  ((9 <=? code c) && (code c <=? 13)) || (code c =? 32)
  || (code c =? 133) || (code c =? 160).

Fixpoint lstrip (cs : list ascii) : list ascii :=
  match cs with
  | [] => []
  | c :: rest => if is_space c then lstrip rest else cs
  end.

Definition strip (cs : list ascii) : list ascii :=
  rev (lstrip (rev (lstrip cs))).

(** The digits of a literal: at least one digit, single underscores allowed
    between two digits.  [acc] is the value read so far and [after_digit]
    tells whether the previous character was a digit. *)
Fixpoint scan_digits (cs : list ascii) (acc : Z) (after_digit : bool) : option Z :=
  match cs with
  | [] => if after_digit then Some acc else None
  | c :: rest =>
      if is_digit c then scan_digits rest (10 * acc + digit_value c) true
      else if Ascii.eqb c "_" then
        if after_digit then scan_digits rest acc false else None
      else None
  end.

(** The most digits [int] converts from a decimal literal
    ([sys.int_info.default_max_str_digits]). *)
Definition max_str_digits : Z := 4300.

(** [int(s)] for a string, base ten: surrounding white space, an optional
    sign, digits, no more of them than [max_str_digits].  Anything else is a
    [ValueError]. *)
Definition int_of_chars (cs : list ascii) : result Z :=
  let body := strip cs in
  let '(sign, digits) :=
    match body with
    | c :: rest =>
        if Ascii.eqb c "+" then (1, rest)
        else if Ascii.eqb c "-" then (-1, rest)
        else (1, body)
    | [] => (1, body)
    end in
  match scan_digits digits 0 false with
  | Some n =>
      if max_str_digits <? len (List.filter is_digit digits)
      then Raise ValueError
      else Ok (sign * n)
  | None => Raise ValueError
  end.

Definition int_of_str (s : string) : result Z :=
  int_of_chars (list_ascii_of_string s).

(** [s[-1]] *)
Definition str_last (s : string) : result ascii :=
  match last_char s with
  | Some c => Ok c
  | None => Raise IndexError
  end.

(** [s[:-1]] *)
Definition str_init (s : string) : string :=
  string_of_list_ascii (removelast (list_ascii_of_string s)).

Definition ascii_upper (c : ascii) : ascii :=
  if (97 <=? code c) && (code c <=? 122)
  then ascii_of_N (N_of_ascii c - 32) else c.

Definition ascii_lower (c : ascii) : ascii :=
  if (65 <=? code c) && (code c <=? 90)
  then ascii_of_N (N_of_ascii c + 32) else c.

Fixpoint str_lower (s : string) : string :=
  match s with
  | EmptyString => EmptyString
  | String c rest => String (ascii_lower c) (str_lower rest)
  end.

(** [s.capitalize()], on the ASCII letters. *)
Definition capitalize (s : string) : string :=
  match s with
  | EmptyString => EmptyString
  | String c rest => String (ascii_upper c) (str_lower rest)
  end.

(** ** SafetyManager: duration parsing *)

(** [units.get(unit, 1)] for
    [units = {'s': 1, 'm': 60, 'h': 3600, 'd': 86400}]. *)
Definition units_get (unit : ascii) (dflt : Z) : Z :=
  if Ascii.eqb unit "s" then 1
  else if Ascii.eqb unit "m" then 60
  else if Ascii.eqb unit "h" then 3600
  else if Ascii.eqb unit "d" then 86400
  else dflt.

Definition _parse_duration (duration_str : string) : result Z :=
  let* unit := str_last duration_str in
  match int_of_str (str_init duration_str) with
  | Ok value => Ok (value * units_get unit 1)
  | Raise ValueError => Ok 300
  | Raise e => Raise e
  end.

(** ** The world of the controller *)

(** What the orchestrator holds of a deployment. *)
Record Deployment : Type := {
  deployment_name : string;
  uid : string;
  replicas : option Z
}.

(** The orchestrator client, by its answers. *)
Record Orchestrator : Type := {
  read_namespaced_deployment : string -> string -> result Deployment;
  patch_namespaced_deployment : string -> string -> Z -> result unit;
  patch_namespaced_custom_object_status : string -> string -> Z -> string -> result unit
}.

(** Requests sent to the orchestrator, with the answer to a patch. *)
Inductive event : Type :=
  | ReadDeployment (name namespace : string)
  | PatchReplicas (name namespace : string) (replicas : Z) (answer : result unit)
  | PatchStatus (name namespace : string) (currentReplicas : Z) (reason : string).

(** The mutable state a reconciliation touches: the ledger of the safety
    manager, the wall clock ([clock n] is what the [n]-th call of
    [time.time()] returns; [reads] counts the calls made so far) and the
    requests sent so far, latest first. *)
Record World : Type := {
  last_scale_operations : gmap string Q;
  clock : nat -> Q;
  reads : nat;
  trace : list event
}.

Definition M (A : Type) : Type := World -> result A * World.

Definition ret {A : Type} (a : A) : M A := fun w => (Ok a, w).

Definition bind {A B : Type} (m : M A) (k : A -> M B) : M B :=
  fun w =>
    match m w with
    | (Ok a, w') => k a w'
    | (Raise e, w') => (Raise e, w')
    end.

Notation "'let!' x ':=' e 'in' k" := (bind e (fun x => k))
  (at level 10, x name, e at level 100, k at level 200).

Definition lift {A : Type} (r : result A) : M A := fun w => (r, w).

(** [try: body except Exception: log] *)
Definition try_except (body : M unit) : M unit :=
  fun w =>
    match body w with
    | (Ok _, w') => (Ok tt, w')
    | (Raise _, w') => (Ok tt, w')
    end.

(** [time.time()] *)
Definition time_time : M Q :=
  fun w =>
    (Ok (clock w (reads w)),
     {| last_scale_operations := last_scale_operations w;
        clock := clock w;
        reads := S (reads w);
        trace := trace w |}).

Definition emit (e : event) : M unit :=
  fun w =>
    (Ok tt,
     {| last_scale_operations := last_scale_operations w;
        clock := clock w;
        reads := reads w;
        trace := e :: trace w |}).

(** [self.last_scale_operations.get(scaler_name, 0)] *)
Definition ledger_get (scaler_name : string) : M Q :=
  fun w => (Ok (get (last_scale_operations w !! scaler_name) 0%Q), w).

(** [self.last_scale_operations[scaler_name] = t] *)
Definition ledger_set (scaler_name : string) (t : Q) : M unit :=
  fun w =>
    (Ok tt,
     {| last_scale_operations := <[scaler_name := t]> (last_scale_operations w);
        clock := clock w;
        reads := reads w;
        trace := trace w |}).

(** ** SafetyManager *)

(** [safety_config.get(key, ...)] for a key computed at run time. *)
Definition safety_get (safety_config : SafetyConfig) (key : string) : option string :=
  if String.eqb key "scaleUpCooldown" then scaleUpCooldown safety_config
  else if String.eqb key "scaleDownCooldown" then scaleDownCooldown safety_config
  else None.

Definition can_scale (scaler_name : string) (safety_config : SafetyConfig)
    (direction : string) : M bool :=
  let cooldown_key := ("scale" ++ capitalize direction ++ "Cooldown")%string in
  let! cooldown_seconds :=
    lift (_parse_duration (get (safety_get safety_config cooldown_key) "5m"%string)) in
  let! last_scale := ledger_get scaler_name in
  let! now := time_time in
  let time_since_last := (now - last_scale)%Q in
  if Qlt_bool time_since_last (inject_Z cooldown_seconds) then ret false
  else ret true.

Definition apply_rate_limits (current desired : Z) (safety_config : SafetyConfig) : Z :=
  let max_rate := get (maxScaleRate safety_config) 2 in
  if current <? desired then
    let limited := Z.min (current + max_rate) desired in
    limited
  else if desired <? current then
    let limited := Z.max (current - max_rate) desired in
    limited
  else desired.

(** The clock is read twice: for the ledger, then for the log line. *)
Definition record_scale_operation (scaler_name : string) : M unit :=
  let! now := time_time in
  let! _ := ledger_set scaler_name now in
  let! _ := time_time in
  ret tt.

(** ** Metric plugins *)

(** [needle in haystack] *)
Fixpoint contains (needle haystack : string) : bool :=
  String.prefix needle haystack ||
  match haystack with
  | EmptyString => false
  | String _ rest => contains needle rest
  end.

Inductive MetricPlugin : Type :=
  | PrometheusPlugin
  | RedisPlugin.

Definition get_metric (self : MetricPlugin) (config : PluginConfig) : result Q :=
  match self with
  | PrometheusPlugin =>
      let query := get (query config) ""%string in
      if contains "cpu" query then Ok 75%Q
      else if contains "memory" query then Ok 65%Q
      else if contains "http_request" query then Ok 150%Q
      else Ok 50%Q
  | RedisPlugin => Ok 10%Q
  end.

(** [self.metric_plugins] *)
Definition metric_plugins : gmap string MetricPlugin :=
  <["prometheus"%string := PrometheusPlugin]> (<["redis"%string := RedisPlugin]> ∅).

Definition empty_plugin_config : PluginConfig :=
  {| query := None; host := None; queue_name := None |}.

(** ** The reconciler *)

Record Metadata : Type := {
  name : string;
  namespace : option string
}.

Record Scaler : Type := {
  metadata : Metadata;
  spec : option ScalerConfig
}.

Definition empty_spec : ScalerConfig :=
  {| targetRef := None; minReplicas := None; maxReplicas := None;
     metrics := None; policy := None; safety := None |}.

Definition empty_policy : PolicyConfig :=
  {| type := None; sloTarget := None; maxCostPerReplica := None |}.

Definition empty_safety : SafetyConfig :=
  {| maxScaleRate := None; scaleUpCooldown := None; scaleDownCooldown := None |}.

Definition empty_target_ref : TargetRef := {| target_name := None |}.

(** [x or dflt] for an optional integer: [None] and [0] are falsy. *)
Definition or_else (x : option Z) (dflt : Z) : Z :=
  match x with
  | None => dflt
  | Some 0 => dflt
  | Some n => n
  end.

(** [not target_name]: absent or empty. *)
Definition falsy_str (s : option string) : bool :=
  match s with
  | None => true
  | Some s => String.eqb s ""
  end.

(** A plugin that fails leaves its sample out. *)
Fixpoint _collect_metrics (metrics_config : list MetricConfig)
    (scaler_name : string) : list Q :=
  match metrics_config with
  | [] => []
  | metric_config :: rest =>
      let collected :=
        match plugin metric_config with
        | Some plugin_name =>
            match metric_plugins !! plugin_name with
            | Some plugin =>
                match get_metric plugin
                        (get (config metric_config) empty_plugin_config) with
                | Ok metric_value => [metric_value]
                | Raise _ => []
                end
            | None => []
            end
        | None => []
        end in
      collected ++ _collect_metrics rest scaler_name
  end.

Definition _scale_deployment (api : Orchestrator) (deployment : Deployment)
    (desired_replicas : Z) (namespace : string) : M unit :=
  let answer :=
    patch_namespaced_deployment api (deployment_name deployment) namespace desired_replicas in
  let! _ := emit (PatchReplicas (deployment_name deployment) namespace desired_replicas answer) in
  lift answer.

(** A failed status patch is logged and forgotten. *)
Definition _update_scaler_status (api : Orchestrator) (scaler_name namespace : string)
    (current_replicas : Z) (deployment_uid : string) (reason : string) : M unit :=
  try_except
    (let! _ := emit (PatchStatus scaler_name namespace current_replicas reason) in
     lift (patch_namespaced_custom_object_status api scaler_name namespace
             current_replicas reason)).

Definition _reconcile_scaler (api : Orchestrator) (scaler : Scaler) : M unit :=
  let scaler_name := name (metadata scaler) in
  let namespace := get (namespace (metadata scaler)) "default"%string in
  let spec := get (spec scaler) empty_spec in
  try_except
    (let target_ref := get (targetRef spec) empty_target_ref in
     let target_name := target_name target_ref in
     if falsy_str target_name then ret tt
     else
       let target_name := get target_name ""%string in
       let! _ := emit (ReadDeployment target_name namespace) in
       let! deployment := lift (read_namespaced_deployment api target_name namespace) in
       let current_replicas := or_else (replicas deployment) 1 in
       let metrics := _collect_metrics (get (metrics spec) []) scaler_name in
       match metrics with
       | [] => ret tt
       | _ :: _ =>
           let! desired_replicas :=
             lift (calculate_desired_replicas current_replicas metrics
                     (get (policy spec) empty_policy) spec) in
           if desired_replicas =? current_replicas then
             _update_scaler_status api scaler_name namespace current_replicas
               (uid deployment) "ScalingApplied"
           else
             let direction :=
               if current_replicas <? desired_replicas
               then "up"%string else "down"%string in
             let safety_config := get (safety spec) empty_safety in
             let! allowed := can_scale scaler_name safety_config direction in
             if negb allowed then
               _update_scaler_status api scaler_name namespace current_replicas
                 (uid deployment) "CooldownActive"
             else
               let limited_replicas :=
                 apply_rate_limits current_replicas desired_replicas safety_config in
               let! _ :=
                 (if negb (limited_replicas =? current_replicas) then
                    let! _ := _scale_deployment api deployment limited_replicas namespace in
                    record_scale_operation scaler_name
                  else ret tt) in
               _update_scaler_status api scaler_name namespace limited_replicas
                 (uid deployment) "ScalingApplied"
       end).

(** The reconciliations of successive ticks, one after the other; the
    scaler object and the orchestrator's answers may differ from tick to
    tick. *)
Fixpoint reconcile_all (ticks : list (Orchestrator * Scaler)) (w : World) : World :=
  match ticks with
  | [] => w
  | (api, scaler) :: rest => reconcile_all rest (snd (_reconcile_scaler api scaler w))
  end.

(** ** The controller loop *)

(** The answer of [list_cluster_custom_object]: a dictionary that may hold
    [items]. *)
Record ListResponse : Type := {
  items : option (list Scaler)
}.

Definition _get_all_scalers (list_cluster_custom_object : result ListResponse)
    : result (list Scaler) :=
  match list_cluster_custom_object with
  | Ok response => Ok (get (items response) [])
  | Raise (ApiException _) => Ok []
  | Raise e => Raise e
  end.

(** [asyncio.gather] over the reconciliations of a tick.  They are started
    together; here they run one after the other, in the order of the list. *)
Fixpoint gather (api : Orchestrator) (scalers : list Scaler) : M unit :=
  match scalers with
  | [] => ret tt
  | scaler :: rest =>
      let! _ := _reconcile_scaler api scaler in
      gather api rest
  end.

(** One pass through the body of the loop of [run]; the result is the
    number of seconds it sleeps. *)
Definition run_iteration (list_cluster_custom_object : result ListResponse)
    (api : Orchestrator) : M Z :=
  fun w =>
    match (let! scalers := lift (_get_all_scalers list_cluster_custom_object) in
           let! _ := gather api scalers in
           ret 30) w with
    | (Ok seconds, w') => (Ok seconds, w')
    | (Raise _, w') => (Ok 10, w')
    end.

(** ** The specification's formulas, in its own words *)

(** [m = mean(samples)] when non-empty, else [0]. *)
Definition mean (samples : list Q) : Q :=
  match samples with
  | [] => 0%Q
  | _ :: _ => (fsum samples / inject_Z (len samples))%Q
  end.

(** Rounding toward zero: down for a non-negative number, up for a
    negative one. *)
Definition trunc_toward_zero (x : Q) : Z :=
  if Qle_bool 0 x then Qfloor x else Qceiling x.

(** [clamp(raw, min, max)] *)
Definition clamp (raw lo hi : Z) : Z := Z.max lo (Z.min hi raw).

(** [ratio = m / target] if [target > 0], else [1]. *)
Definition slo_ratio (m target : Q) : Q :=
  if Qlt_bool 0 target then (m / target)%Q else 1%Q.

(** [cpr = m / current] if [current > 0], else [0]. *)
Definition cpr (m : Q) (current : Z) : Q :=
  if 0 <? current then (m / inject_Z current)%Q else 0%Q.

(** The policy a configuration selects: [type], defaulting to ["slo"]. *)
Definition policy_type_of (policy_config : PolicyConfig) : string :=
  get (type policy_config) "slo"%string.

(** The duration grammar [^([0-9]+)(s|m|h|d)$], on the characters of the
    string: one of the four units last, at least one character before it,
    all of them digits. *)
Definition is_unit (c : ascii) : bool :=
  Ascii.eqb c "s" || Ascii.eqb c "m" || Ascii.eqb c "h" || Ascii.eqb c "d".

Definition matches_duration_grammar (s : string) : bool :=
  match rev (list_ascii_of_string s) with
  | [] => false
  | u :: before =>
      is_unit u && negb (Nat.eqb (length before) 0) && forallb is_digit before
  end.

(** The number a string of decimal digits denotes. *)
Definition decimal_value (digits : list ascii) : Z :=
  fold_left (fun acc c => 10 * acc + digit_value c) digits 0.

(** [s=1, m=60, h=3600, d=86400] *)
Definition unit_factor (u : ascii) : Z :=
  if Ascii.eqb u "s" then 1
  else if Ascii.eqb u "m" then 60
  else if Ascii.eqb u "h" then 3600
  else 86400.

(** The characters of a literal that [int] accepts: digits, white space,
    the two signs and the underscore. *)
Definition int_char (c : ascii) : bool :=
  is_digit c || is_space c || Ascii.eqb c "+" || Ascii.eqb c "-" || Ascii.eqb c "_".

(** The cooldown a direction selects: [scaleUpCooldown] for up,
    [scaleDownCooldown] for down, five minutes when it is not set. *)
Definition selected_cooldown (safety_config : SafetyConfig) (up : bool) : string :=
  get (if up then scaleUpCooldown safety_config else scaleDownCooldown safety_config)
      "5m"%string.

Definition direction_name (up : bool) : string :=
  if up then "up"%string else "down"%string.

(** ** Vocabulary for statements about a reconciliation *)

(** The direction the reconciler derives from the two counts. *)
Definition direction_of (current desired : Z) : string :=
  if current <? desired then "up"%string else "down"%string.

(** The duration string [can_scale] parses for a direction. *)
Definition cooldown_setting (safety_config : SafetyConfig) (direction : string) : string :=
  get (safety_get safety_config ("scale" ++ capitalize direction ++ "Cooldown")%string)
      "5m"%string.

(** The ledger entry of a scaler as [can_scale] reads it. *)
Definition last_scale_of (w : World) (scaler_name : string) : Q :=
  get (last_scale_operations w !! scaler_name) 0%Q.

(** The next reading of the clock. *)
Definition now (w : World) : Q := clock w (reads w).

Definition scaler_spec (scaler : Scaler) : ScalerConfig := get (spec scaler) empty_spec.

Definition scaler_namespace (scaler : Scaler) : string :=
  get (namespace (metadata scaler)) "default"%string.

Definition scaler_safety (scaler : Scaler) : SafetyConfig :=
  get (safety (scaler_spec scaler)) empty_safety.

(** A reconciliation of [scaler] in world [w] got as far as a patch of the
    target: it read deployment [dep], the policy answered [desired], another
    count than the current one, the cooldown [c] of the direction had
    elapsed, and the rate limiter left [limited], again another count than
    the current one. *)
Definition reaches_patch (api : Orchestrator) (scaler : Scaler) (w : World)
    (dep : Deployment) (desired limited c : Z) : Prop :=
  let current := or_else (replicas dep) 1 in
  let sp := scaler_spec scaler in
  (exists tn : string,
      target_name (get (targetRef sp) empty_target_ref) = Some tn /\
      read_namespaced_deployment api tn (scaler_namespace scaler) = Ok dep) /\
  calculate_desired_replicas current
    (_collect_metrics (get (metrics sp) []) (name (metadata scaler)))
    (get (policy sp) empty_policy) sp = Ok desired /\
  desired <> current /\
  _parse_duration (cooldown_setting (scaler_safety scaler) (direction_of current desired))
    = Ok c /\
  (inject_Z c <= now w - last_scale_of w (name (metadata scaler)))%Q /\
  limited = apply_rate_limits current desired (scaler_safety scaler) /\
  limited <> current.

(** The requests of a replica count among a list of events. *)
Definition is_patch (e : event) : bool :=
  match e with
  | PatchReplicas _ _ _ _ => true
  | _ => false
  end.

(** The patches among them that the orchestrator accepted. *)
Definition is_accepted_patch (e : event) : bool :=
  match e with
  | PatchReplicas _ _ _ (Ok _) => true
  | _ => false
  end.

(** The events a computation added to the trace of [w]. *)
Definition added (w w' : World) (new : list event) : Prop :=
  trace w' = new ++ trace w.

(** A clock that never runs backwards. *)
Definition monotone (clock : nat -> Q) : Prop :=
  forall i j : nat, (i <= j)%nat -> (clock i <= clock j)%Q.

(** A reconciliation that ends in a successful scale mutation: among the
    requests it adds there is a patch of the replica count that the
    orchestrator accepted. *)
Definition mutates (api : Orchestrator) (scaler : Scaler) (w : World) : Prop :=
  exists new,
    added w (snd (_reconcile_scaler api scaler w)) new /\
    existsb is_accepted_patch new = true.

(** The ledger entry of [key] is a reading of [clock0] not earlier than
    the reading [S n0], in a world on that clock that has read it at least
    [n0] times. *)
Definition recorded_since (clock0 : nat -> Q) (n0 : nat) (key : string) (w : World) : Prop :=
  clock w = clock0 /\
  (n0 <= reads w)%nat /\
  exists t, last_scale_operations w !! key = Some t /\ (clock0 (S n0) <= t)%Q.

(** A safety configuration with a two-second cooldown for scaling up. *)
Definition brisk_safety_config : SafetyConfig :=
  {| maxScaleRate := Some 2;
     scaleUpCooldown := Some "2s"%string;
     scaleDownCooldown := Some "5m"%string |}.

(** ** Vocabulary for further properties of the code *)

(** The count after [n] ticks that each patch the rate-limited count, when
    the policy keeps asking for [desired]. *)
Fixpoint approach (n : nat) (current desired : Z) (safety_config : SafetyConfig) : Z :=
  match n with
  | O => current
  | S n' => approach n' (apply_rate_limits current desired safety_config) desired safety_config
  end.

(** An entry of [spec.metrics] whose plugin is registered. *)
Definition known_plugin (metric_config : MetricConfig) : bool :=
  match plugin metric_config with
  | Some plugin_name =>
      String.eqb plugin_name "prometheus" || String.eqb plugin_name "redis"
  | None => false
  end.

(** The samples the two plugins can return. *)
Definition stub_samples : list Q := [75%Q; 65%Q; 150%Q; 50%Q; 10%Q].

(** A tick in which the policy asks for the count the target has. *)
Definition steady (tick : Orchestrator * Scaler) : Prop :=
  let '(api, scaler) := tick in
  let sp := scaler_spec scaler in
  forall tn dep,
    target_name (get (targetRef sp) empty_target_ref) = Some tn ->
    read_namespaced_deployment api tn (scaler_namespace scaler) = Ok dep ->
    calculate_desired_replicas (or_else (replicas dep) 1)
      (_collect_metrics (get (metrics sp) []) (name (metadata scaler)))
      (get (policy sp) empty_policy) sp = Ok (or_else (replicas dep) 1).

(** [needle] occurs in [haystack]. *)
Definition occurs_in (needle haystack : string) : Prop :=
  exists before after : string, haystack = (before ++ needle ++ after)%string.

(** The requests one reconciliation of [scaler] can add, latest first. *)
Inductive requests_of (scaler : Scaler) : list event -> Prop :=
  | NothingSent : requests_of scaler []
  | OnlyRead tn :
      requests_of scaler [ReadDeployment tn (scaler_namespace scaler)]
  | ReadAndStatus tn n reason :
      reason = "ScalingApplied"%string \/ reason = "CooldownActive"%string ->
      requests_of scaler
        [PatchStatus (name (metadata scaler)) (scaler_namespace scaler) n reason;
         ReadDeployment tn (scaler_namespace scaler)]
  | PatchRefused tn dn n e :
      requests_of scaler
        [PatchReplicas dn (scaler_namespace scaler) n (Raise e);
         ReadDeployment tn (scaler_namespace scaler)]
  | PatchAccepted tn dn n :
      requests_of scaler
        [PatchStatus (name (metadata scaler)) (scaler_namespace scaler) n "ScalingApplied";
         PatchReplicas dn (scaler_namespace scaler) n (Ok tt);
         ReadDeployment tn (scaler_namespace scaler)].

(** The world [w] after one more request. *)
Definition sent (e : event) (w : World) : World :=
  {| last_scale_operations := last_scale_operations w;
     clock := clock w;
     reads := reads w;
     trace := e :: trace w |}.

(** An exception of the orchestrator client. *)
Definition is_api_exception (e : exn) : bool :=
  match e with
  | ApiException _ => true
  | _ => false
  end.

(** ** Test fixtures ([tests/unit/test_policy_safety.py]) *)

Definition cost_policy (c : Q) : PolicyConfig :=
  {| type := Some "cost"%string; sloTarget := None; maxCostPerReplica := Some c |}.

Definition slo_policy (t : Q) : PolicyConfig :=
  {| type := Some "slo"%string; sloTarget := Some t; maxCostPerReplica := None |}.

Definition bounds (lo hi : Z) : ScalerConfig :=
  {| targetRef := None; minReplicas := Some lo; maxReplicas := Some hi;
     metrics := None; policy := None; safety := None |}.

Definition test_safety_config : SafetyConfig :=
  {| maxScaleRate := Some 2;
     scaleUpCooldown := Some "30s"%string;
     scaleDownCooldown := Some "5m"%string |}.

(** ** A scenario for the reconciler *)

Definition web_deployment (r : option Z) : Deployment :=
  {| deployment_name := "web"; uid := "uid-1"; replicas := r |}.

(** An orchestrator that reports [dep] and accepts every patch. *)
Definition obliging (dep : Deployment) : Orchestrator :=
  {| read_namespaced_deployment := fun _ _ => Ok dep;
     patch_namespaced_deployment := fun _ _ _ => Ok tt;
     patch_namespaced_custom_object_status := fun _ _ _ _ => Ok tt |}.

(** An orchestrator that reports [dep] and refuses every patch. *)
Definition refusing (dep : Deployment) : Orchestrator :=
  {| read_namespaced_deployment := fun _ _ => Ok dep;
     patch_namespaced_deployment := fun _ _ _ => Raise (ApiException 409);
     patch_namespaced_custom_object_status := fun _ _ _ _ => Ok tt |}.

(** A scaler of the deployment [web], bounded by 1 and 10, fed by the
    Prometheus plugin on a cpu query (a sample of 75). *)
Definition web_scaler (policy_config : PolicyConfig) (safety_config : SafetyConfig) : Scaler :=
  {| metadata := {| name := "web-scaler"; namespace := None |};
     spec := Some
       {| targetRef := Some {| target_name := Some "web"%string |};
          minReplicas := Some 1;
          maxReplicas := Some 10;
          metrics := Some [ {| plugin := Some "prometheus"%string;
                               config := Some {| query := Some "rate(cpu_seconds)"%string;
                                                 host := None;
                                                 queue_name := None |} |} ];
          policy := Some policy_config;
          safety := Some safety_config |} |}.

(** A clock that starts at [t0] and advances one second a reading. *)
Definition ticking (t0 : Z) : nat -> Q := fun n => inject_Z (t0 + Z.of_nat n).

(** The deployment [dep], reported with another replica count. *)
Definition reported_as (dep : Deployment) (r : option Z) : Deployment :=
  {| deployment_name := deployment_name dep; uid := uid dep; replicas := r |}.

(** The orchestrator [api], answering every read with [dep]. *)
Definition reading (api : Orchestrator) (dep : Deployment) : Orchestrator :=
  {| read_namespaced_deployment := fun _ _ => Ok dep;
     patch_namespaced_deployment := patch_namespaced_deployment api;
     patch_namespaced_custom_object_status := patch_namespaced_custom_object_status api |}.

(** The patched clock of the cooldown tests: [t_record] while the scale is
    recorded (two readings), [t_check] afterwards. *)
Definition mock_time (t_record t_check : Q) : nat -> Q :=
  fun n => if (n <? 2)%nat then t_record else t_check.

(** A world with an empty ledger and nothing sent, on a given clock. *)
Definition fresh_world (clock : nat -> Q) : World :=
  {| last_scale_operations := ∅; clock := clock; reads := 0; trace := [] |}.

(** * Properties *)

(** ** Numbers *)

Lemma Qlt_bool_true (x y : Q) : Qlt_bool x y = true <-> (x < y)%Q.
Proof.
  unfold Qlt_bool. rewrite negb_true_iff, <- not_true_iff_false, Qle_bool_iff.
  split; [apply Qnot_le_lt | apply Qlt_not_le].
Qed.

Lemma Qlt_bool_false (x y : Q) : Qlt_bool x y = false <-> (y <= x)%Q.
Proof.
  unfold Qlt_bool. rewrite negb_false_iff. apply Qle_bool_iff.
Qed.

Lemma int_of_float_nonneg (x : Q) : (0 <= x)%Q -> int_of_float x = Qfloor x.
Proof.
  destruct x as [n d]. unfold Qle, int_of_float, Qfloor. simpl. intros Hn.
  apply Z.quot_div_nonneg; lia.
Qed.

Lemma int_of_float_nonpos (x : Q) : (x <= 0)%Q -> int_of_float x = Qceiling x.
Proof.
  destruct x as [n d]. unfold Qle, int_of_float, Qceiling, Qfloor. simpl. intros Hn.
  rewrite <- (Z.opp_involutive n) at 1.
  rewrite Z.quot_opp_l by lia.
  f_equal. apply Z.quot_div_nonneg; lia.
Qed.

(** [int(x)] is the truncation of the specification. *)
Lemma int_of_float_trunc (x : Q) : int_of_float x = trunc_toward_zero x.
Proof.
  unfold trunc_toward_zero. destruct (Qle_bool 0 x) eqn:E.
  - apply int_of_float_nonneg, Qle_bool_iff, E.
  - apply int_of_float_nonpos. apply Qlt_le_weak, Qlt_bool_true.
    unfold Qlt_bool. now rewrite E.
Qed.

Lemma Qceiling_floor_cases (x : Q) :
  (inject_Z (Qfloor x) < x)%Q /\ Qceiling x = Qfloor x + 1 \/
  (inject_Z (Qfloor x) == x)%Q /\ Qceiling x = Qfloor x.
Proof.
  destruct x as [n d]. unfold Qceiling, Qfloor, Qlt, Qeq. simpl.
  pose proof (Z.div_mod n (Zpos d) ltac:(lia)) as Hdm.
  pose proof (Z.mod_pos_bound n (Zpos d) ltac:(lia)) as Hb.
  destruct (Z.eq_dec (n mod Zpos d) 0) as [Hz | Hnz].
  - right. rewrite Z.div_opp_l_z by (lia || assumption). lia.
  - left. rewrite Z.div_opp_l_nz by (lia || assumption). lia.
Qed.

(** Truncating and then adding one when the quotient is larger than its
    truncation is the ceiling, whatever the sign. *)
Lemma round_up_is_ceiling (q : Q) :
  (if Qlt_bool (inject_Z (int_of_float q)) q
   then int_of_float q + 1 else int_of_float q) = Qceiling q.
Proof.
  destruct (Qlt_le_dec q 0) as [Hneg | Hpos].
  - rewrite int_of_float_nonpos by now apply Qlt_le_weak.
    destruct (Qlt_bool _ q) eqn:E; [|reflexivity].
    apply Qlt_bool_true in E. exfalso.
    apply (Qlt_irrefl q). eapply Qle_lt_trans; [apply Qle_ceiling | exact E].
  - rewrite int_of_float_nonneg by assumption.
    destruct (Qceiling_floor_cases q) as [[Hlt Hc] | [Heq Hc]]; rewrite Hc.
    + apply Qlt_bool_true in Hlt. now rewrite Hlt.
    + destruct (Qlt_bool _ q) eqn:E; [|reflexivity].
      apply Qlt_bool_true in E. rewrite Heq in E. now apply Qlt_irrefl in E.
Qed.

Lemma truediv_ok (x y : Q) : ~ (y == 0)%Q -> truediv x y = Ok (x / y)%Q.
Proof.
  intros Hy. unfold truediv. destruct (Qeq_bool y 0) eqn:E; [|reflexivity].
  now apply Qeq_bool_iff in E.
Qed.

Lemma truediv_zero (x y : Q) : (y == 0)%Q -> truediv x y = Raise ZeroDivisionError.
Proof.
  intros Hy. unfold truediv. now rewrite (Qeq_eq_bool _ _ Hy).
Qed.

Lemma len_cons_pos {A : Type} (x : A) (l : list A) : 0 < len (x :: l).
Proof. unfold len. simpl length. lia. Qed.

Lemma inject_Z_pos_nonzero (z : Z) : 0 < z -> ~ (inject_Z z == 0)%Q.
Proof. unfold Qeq. simpl. lia. Qed.

(** Averaging never divides by zero. *)
Lemma current_metric_of_mean (metrics : list Q) :
  current_metric_of metrics = Ok (mean metrics).
Proof.
  destruct metrics as [|x l]; [reflexivity|].
  unfold current_metric_of, mean.
  apply truediv_ok, inject_Z_pos_nonzero, len_cons_pos.
Qed.

Lemma fold_left_Qplus_nonneg (l : list Q) (acc : Q) :
  (0 <= acc)%Q -> Forall (Qle 0) l -> (0 <= fold_left Qplus l acc)%Q.
Proof.
  revert acc. induction l as [|x l IH]; intros acc Hacc Hl; simpl; [assumption|].
  inversion Hl; subst. apply IH; [|assumption].
  replace 0%Q with (0 + 0)%Q by reflexivity. now apply Qplus_le_compat.
Qed.

Lemma mean_nonneg (samples : list Q) : Forall (Qle 0) samples -> (0 <= mean samples)%Q.
Proof.
  intros H. destruct samples as [|x l]; [apply Qle_refl|].
  unfold mean. apply Qle_shift_div_l.
  - pose proof (len_cons_pos x l). unfold Qlt. simpl. lia.
  - rewrite Qmult_0_l. apply fold_left_Qplus_nonneg; [apply Qle_refl | assumption].
Qed.

(** ** The policy engine, branch by branch *)

Lemma calculate_slo current metrics policy_config scaler_config :
  policy_type_of policy_config = "slo"%string ->
  calculate_desired_replicas current metrics policy_config scaler_config =
  _slo_based_scaling current metrics policy_config scaler_config.
Proof.
  unfold calculate_desired_replicas, policy_type_of. now intros ->.
Qed.

Lemma calculate_cost current metrics policy_config scaler_config :
  policy_type_of policy_config = "cost"%string ->
  calculate_desired_replicas current metrics policy_config scaler_config =
  _cost_aware_scaling current metrics policy_config scaler_config.
Proof.
  unfold calculate_desired_replicas, policy_type_of. now intros ->.
Qed.

Lemma calculate_unknown current metrics policy_config scaler_config :
  policy_type_of policy_config <> "slo"%string ->
  policy_type_of policy_config <> "cost"%string ->
  calculate_desired_replicas current metrics policy_config scaler_config = Ok current.
Proof.
  unfold calculate_desired_replicas, policy_type_of. intros H1 H2.
  apply String.eqb_neq in H1, H2. now rewrite H1, H2.
Qed.

Lemma slo_scaling_eq current metrics policy_config scaler_config :
  _slo_based_scaling current metrics policy_config scaler_config =
  Ok (clamp
        (int_of_float
           (inject_Z current *
            slo_ratio (mean metrics) (get (sloTarget policy_config) 80%Q)))
        (get (minReplicas scaler_config) 1)
        (get (maxReplicas scaler_config) 10)).
Proof.
  unfold _slo_based_scaling, slo_ratio. rewrite current_metric_of_mean. simpl rbind.
  destruct (Qlt_bool 0 (get (sloTarget policy_config) 80%Q)) eqn:E; [|reflexivity].
  rewrite truediv_ok; [reflexivity|].
  apply Qlt_bool_true in E. intros Hz. rewrite Hz in E. now apply Qlt_irrefl in E.
Qed.

Lemma cpr_nonneg m current : (0 <= m)%Q -> (0 <= cpr m current)%Q.
Proof.
  intros Hm. unfold cpr. destruct (0 <? current) eqn:E; [|apply Qle_refl].
  apply Z.ltb_lt in E. apply Qle_shift_div_l.
  - unfold Qlt. simpl. lia.
  - now rewrite Qmult_0_l.
Qed.

Lemma cost_scaling_cpr current metrics policy_config scaler_config :
  _cost_aware_scaling current metrics policy_config scaler_config =
  let max_cost := get (maxCostPerReplica policy_config) 5%Q in
  let m := mean metrics in
  if Qlt_bool max_cost (cpr m current) then
    let* q := truediv m max_cost in
    Ok (Z.min (if Qlt_bool (inject_Z (int_of_float q)) q
               then int_of_float q + 1 else int_of_float q)
              (get (maxReplicas scaler_config) 10))
  else if Qlt_bool (cpr m current) (max_cost * 0.5) then
    let* q := truediv m (max_cost * 0.8) in
    Ok (Z.max (int_of_float q) (get (minReplicas scaler_config) 1))
  else Ok current.
Proof.
  unfold _cost_aware_scaling, cpr. rewrite current_metric_of_mean. simpl rbind.
  destruct (0 <? current) eqn:E.
  - apply Z.ltb_lt in E. rewrite truediv_ok by now apply inject_Z_pos_nonzero.
    simpl rbind. cbv zeta.
    destruct (Qlt_bool _ (mean metrics / inject_Z current)); [|reflexivity].
    destruct (truediv (mean metrics) _); reflexivity.
  - simpl rbind. cbv zeta.
    destruct (Qlt_bool _ 0); [|reflexivity].
    destruct (truediv (mean metrics) _); reflexivity.
Qed.

(** ** One reconciliation, step by step *)

Lemma can_scale_run scaler_name safety_config direction w :
  can_scale scaler_name safety_config direction w =
  match _parse_duration (cooldown_setting safety_config direction) with
  | Ok c =>
      (Ok (negb (Qlt_bool (now w - last_scale_of w scaler_name) (inject_Z c))),
       {| last_scale_operations := last_scale_operations w; clock := clock w;
          reads := S (reads w); trace := trace w |})
  | Raise e => (Raise e, w)
  end.
Proof.
  unfold can_scale, cooldown_setting, bind, lift, ledger_get, time_time, now, last_scale_of.
  destruct (_parse_duration _); [|reflexivity].
  cbn [last_scale_operations clock reads trace].
  destruct (Qlt_bool _ _); reflexivity.
Qed.

Lemma record_run scaler_name w :
  record_scale_operation scaler_name w =
  (Ok tt,
   {| last_scale_operations := <[scaler_name := now w]> (last_scale_operations w);
      clock := clock w; reads := S (S (reads w)); trace := trace w |}).
Proof. reflexivity. Qed.

Lemma update_status_run api scaler_name ns n u reason w :
  _update_scaler_status api scaler_name ns n u reason w =
  (Ok tt,
   {| last_scale_operations := last_scale_operations w; clock := clock w;
      reads := reads w; trace := PatchStatus scaler_name ns n reason :: trace w |}).
Proof.
  unfold _update_scaler_status, try_except, bind, emit, lift.
  destruct (patch_namespaced_custom_object_status _ _ _ _ _); reflexivity.
Qed.

(** Closes a branch of the case analysis below in which no patch is sent:
    [E] holds the outcome of the reconciliation and [new] the requests it
    added. *)
Ltac quiet_branch E new :=
  inversion E; subst; cbn;
  split; [reflexivity | left];
  repeat split; try lia;
  now exists new.

(** The outcomes of one reconciliation: no patch is sent, a patch is sent
    and refused, or a patch is sent and accepted. *)
Lemma reconcile_cases api scaler w :
  let w' := snd (_reconcile_scaler api scaler w) in
  let key := name (metadata scaler) in
  clock w' = clock w /\
  ((last_scale_operations w' = last_scale_operations w /\
    (reads w <= reads w' <= S (reads w))%nat /\
    exists new, added w w' new /\ forallb (fun e => negb (is_patch e)) new = true)
   \/
   exists dep desired limited c,
     reaches_patch api scaler w dep desired limited c /\
     let ns := scaler_namespace scaler in
     ((exists e,
         patch_namespaced_deployment api (deployment_name dep) ns limited = Raise e /\
         last_scale_operations w' = last_scale_operations w /\
         reads w' = S (reads w) /\
         exists rest,
           added w w' (PatchReplicas (deployment_name dep) ns limited (Raise e) :: rest) /\
           forallb (fun e => negb (is_patch e)) rest = true)
      \/
      (patch_namespaced_deployment api (deployment_name dep) ns limited = Ok tt /\
       last_scale_operations w' =
         <[key := clock w (S (reads w))]> (last_scale_operations w) /\
       reads w' = S (S (S (reads w))) /\
       exists rest,
         added w w' (PatchStatus key ns limited "ScalingApplied"
                     :: PatchReplicas (deployment_name dep) ns limited (Ok tt) :: rest) /\
         forallb (fun e => negb (is_patch e)) rest = true))).
Proof.
  intros w' key. subst w'.
  destruct (_reconcile_scaler api scaler w) as [r w'] eqn:E. cbn [snd].
  unfold _reconcile_scaler, try_except in E.
  fold key in E. fold (scaler_spec scaler) in E. fold (scaler_namespace scaler) in E.
  set (ns := scaler_namespace scaler) in *.
  set (sp := scaler_spec scaler) in *.
  destruct (falsy_str _) eqn:Htn.
  { cbn in E. quiet_branch E (@nil event). }
  destruct (target_name (get (targetRef sp) empty_target_ref)) as [tn|] eqn:Etn; [|discriminate].
  cbn [get] in E. unfold bind at 1 in E. cbn [emit] in E.
  unfold bind at 1 in E. unfold lift at 1 in E.
  destruct (read_namespaced_deployment api tn ns) as [dep|e] eqn:Eread.
  2:{ quiet_branch E [ReadDeployment tn ns]. }
  set (current := or_else (replicas dep) 1) in *.
  destruct (_collect_metrics (get (metrics sp) []) key) as [|x l] eqn:Em.
  { cbn in E. quiet_branch E [ReadDeployment tn ns]. }
  rewrite <- Em in E.
  unfold bind at 1 in E. unfold lift at 1 in E.
  destruct (calculate_desired_replicas current _ _ sp) as [desired|e] eqn:Ecalc.
  2:{ quiet_branch E [ReadDeployment tn ns]. }
  destruct (desired =? current) eqn:Esame.
  { rewrite update_status_run in E.
    quiet_branch E [PatchStatus key ns current "ScalingApplied"; ReadDeployment tn ns]. }
  apply Z.eqb_neq in Esame.
  unfold bind at 1 in E. rewrite can_scale_run in E.
  fold (direction_of current desired) in E.
  set (sc := get (safety sp) empty_safety) in *.
  cbn [last_scale_operations clock reads trace] in E.
  destruct (_parse_duration _) as [c|e] eqn:Eparse.
  2:{ quiet_branch E [ReadDeployment tn ns]. }
  destruct (Qlt_bool _ (inject_Z c)) eqn:Ecool; cbn [negb] in E.
  { rewrite update_status_run in E.
    quiet_branch E [PatchStatus key ns current "CooldownActive"; ReadDeployment tn ns]. }
  apply Qlt_bool_false in Ecool.
  unfold now, last_scale_of in Ecool. cbn [last_scale_operations clock reads trace] in Ecool.
  set (limited := apply_rate_limits current desired sc) in *.
  destruct (limited =? current) eqn:Elim; cbn [negb] in E.
  { unfold bind at 1, ret at 1 in E. rewrite update_status_run in E.
    quiet_branch E [PatchStatus key ns limited "ScalingApplied"; ReadDeployment tn ns]. }
  apply Z.eqb_neq in Elim.
  assert (Hreach : reaches_patch api scaler w dep desired limited c).
  { unfold reaches_patch, scaler_safety. fold sp. fold ns. fold key. fold current. fold sc.
    unfold now, last_scale_of.
    split; [exists tn; now split|].
    repeat split; assumption || reflexivity. }
  unfold bind at 1 2, _scale_deployment, bind at 1, emit, lift in E.
  destruct (patch_namespaced_deployment api (deployment_name dep) ns limited) as [[]|e] eqn:Epatch.
  - rewrite record_run, update_status_run in E. inversion E; subst. cbn.
    split; [reflexivity|right]. exists dep, desired, limited, c. split; [assumption|].
    right. repeat split; try assumption. now exists [ReadDeployment tn ns].
  - inversion E; subst. cbn.
    split; [reflexivity|right]. exists dep, desired, limited, c. split; [assumption|].
    left. exists e. repeat split; try assumption. now exists [ReadDeployment tn ns].
Qed.

(** ** The tests of the repository, on the embedding *)

Example test_01_scale_up_required :
  calculate_desired_replicas 5 [55%Q] (cost_policy 5) (bounds 1 10) = Ok 10.
Proof. reflexivity. Qed.

Example test_02_max_cap_applied :
  calculate_desired_replicas 5 [80%Q] (cost_policy 5) (bounds 1 10) = Ok 10.
Proof. reflexivity. Qed.

Example test_03_scale_down_required :
  calculate_desired_replicas 11 [10%Q] (cost_policy 5) (bounds 1 10) = Ok 2.
Proof. reflexivity. Qed.

Example test_04_no_change_at_equilibrium :
  calculate_desired_replicas 11 [55%Q] (cost_policy 5) (bounds 1 10) = Ok 11.
Proof. reflexivity. Qed.

Example test_05_rate_limit_up : apply_rate_limits 5 10 test_safety_config = 7.
Proof. reflexivity. Qed.

Example test_06_rate_limit_down : apply_rate_limits 10 2 test_safety_config = 8.
Proof. reflexivity. Qed.

Example test_07_cooldown_active :
  fst (bind (record_scale_operation "test-scaler")
         (fun _ => can_scale "test-scaler" test_safety_config "up")
         (fresh_world (mock_time 100 120))) = Ok false.
Proof. vm_compute. reflexivity. Qed.

Example test_08_cooldown_expired :
  fst (bind (record_scale_operation "test-scaler")
         (fun _ => can_scale "test-scaler" test_safety_config "up")
         (fresh_world (mock_time 100 131))) = Ok true.
Proof. vm_compute. reflexivity. Qed.

(** Durations as the parser reads them. *)
Example parse_duration_examples :
  _parse_duration "30s" = Ok 30 /\
  _parse_duration "5m" = Ok 300 /\
  _parse_duration "2h" = Ok 7200 /\
  _parse_duration "1d" = Ok 86400 /\
  _parse_duration "abc" = Ok 300 /\
  _parse_duration "m" = Ok 300 /\
  _parse_duration "5x" = Ok 5 /\
  _parse_duration "55" = Ok 5 /\
  _parse_duration "-2d" = Ok (-172800) /\
  _parse_duration " 1_0h" = Ok 36000 /\
  _parse_duration "" = Raise IndexError.
Proof. repeat split. Qed.

(** ** Bounds of the desired count (C1) *)


Lemma apply_rate_limits_between current desired safety_config :
  0 <= get (maxScaleRate safety_config) 2 ->
  Z.min current desired <= apply_rate_limits current desired safety_config
    <= Z.max current desired.
Proof.
  intros HR. unfold apply_rate_limits.
  destruct (current <? desired) eqn:E1; [apply Z.ltb_lt in E1; lia|].
  destruct (desired <? current) eqn:E2; [apply Z.ltb_lt in E2; lia|].
  apply Z.ltb_ge in E1, E2. lia.
Qed.

(** What the trace of one reconciliation holds of patches. *)
Lemma reconcile_patch_inv api scaler w new tname ns n answer :
  added w (snd (_reconcile_scaler api scaler w)) new ->
  In (PatchReplicas tname ns n answer) new ->
  exists dep desired c,
    reaches_patch api scaler w dep desired n c /\
    answer = patch_namespaced_deployment api (deployment_name dep)
               (scaler_namespace scaler) n.
Proof.
  intros Hadd Hin.
  destruct (reconcile_cases api scaler w) as [_ [Hq | Hp]].
  - destruct Hq as (_ & _ & new' & Hadd' & Hnone).
    unfold added in *. rewrite Hadd in Hadd'. apply app_inv_tail in Hadd'. subst new'.
    rewrite forallb_forall in Hnone. apply Hnone in Hin. discriminate.
  - destruct Hp as (dep & desired & limited & c & Hreach & Hcase).
    cbv zeta in Hcase.
    destruct Hcase as [(e & Hpatch & _ & _ & rest & Hadd' & Hnone)
                      | (Hpatch & _ & _ & rest & Hadd' & Hnone)];
      unfold added in *; rewrite Hadd in Hadd'; apply app_inv_tail in Hadd'; subst new;
      rewrite forallb_forall in Hnone.
    + destruct Hin as [Heq | Hin]; [|apply Hnone in Hin; discriminate].
      inversion Heq; subst. exists dep, desired, c. now split.
    + destruct Hin as [Heq | [Heq | Hin]]; [discriminate| |apply Hnone in Hin; discriminate].
      inversion Heq; subst. exists dep, desired, c. now split.
Qed.



(** ** The cost policy, scale-up branch (C2) *)

(** With the colon of line 93 restored, the scale-up branch computes the
    ceiling of the quotient, capped by [maxReplicas], for every load above a
    cost that is not zero (a cost of zero makes the quotient raise
    [ZeroDivisionError]). *)
Lemma cost_scale_up_ceiling (current : Z) (samples : list Q)
    (policy_config : PolicyConfig) (scaler_config : ScalerConfig) :
  policy_type_of policy_config = "cost"%string ->
  0 < current ->
  let C := get (maxCostPerReplica policy_config) 5%Q in
  let m := mean samples in
  ~ (C == 0)%Q ->
  (C < m / inject_Z current)%Q ->
  calculate_desired_replicas current samples policy_config scaler_config =
  Ok (Z.min (Qceiling (m / C)) (get (maxReplicas scaler_config) 10)).
Proof.
  intros Hty Hcur C m HC Hlt.
  rewrite calculate_cost, cost_scaling_cpr by assumption. cbv zeta. fold C. fold m.
  assert (Hcpr : cpr m current = (m / inject_Z current)%Q).
  { unfold cpr. apply Z.ltb_lt in Hcur. now rewrite Hcur. }
  rewrite Hcpr. apply Qlt_bool_true in Hlt. rewrite Hlt.
  rewrite truediv_ok by assumption. cbn [rbind].
  now rewrite round_up_is_ceiling.
Qed.

(** C2, the code at the input of [test_01_scale_up_required] (5 replicas,
    one sample of 55, a cost of 5, [maxReplicas = 10]).  Line 93 as it is
    written does not end its [if] header with a colon, the module does not
    compile, and the call raises [SyntaxError] where the claim and the test
    expect 10; with the colon restored the call returns 10. *)
Theorem cost_scale_up_as_written :
  if_header_closed line_93 = false /\
  calculate_desired_replicas_as_written 5 [55%Q] (cost_policy 5) (bounds 1 10)
    = Raise SyntaxError /\
  calculate_desired_replicas 5 [55%Q] (cost_policy 5) (bounds 1 10) = Ok 10.
Proof. repeat split. Qed.

(** ** The cost policy, scale-down branch (C4) *)




(** ** The slo policy (C5) *)

(** [clamp] keeps a value inside ordered bounds and moves it to the nearer
    bound otherwise. *)
Lemma clamp_spec (raw lo hi : Z) :
  lo <= hi ->
  lo <= clamp raw lo hi <= hi /\
  (lo <= raw <= hi -> clamp raw lo hi = raw) /\
  (raw < lo -> clamp raw lo hi = lo) /\
  (hi < raw -> clamp raw lo hi = hi).
Proof. unfold clamp. lia. Qed.



(** ** The rate limiter (C6) *)

(** C6.  For all integers [current] and [desired] and every rate
    [R >= 0], [apply_rate_limits] is
    [max(current - R, min(current + R, desired))]; hence the result is within
    [R] of [current], and is [desired] itself when [desired] is within [R] of
    [current].  In particular [apply_rate_limits(5, 10)] is 7 and
    [apply_rate_limits(10, 2)] is 8 for [R = 2]. *)
Theorem rate_limit_is_clamp :
  (forall (current desired : Z) (safety_config : SafetyConfig),
      let R := get (maxScaleRate safety_config) 2 in
      0 <= R ->
      let limited := apply_rate_limits current desired safety_config in
      limited = Z.max (current - R) (Z.min (current + R) desired) /\
      Z.abs (limited - current) <= R /\
      (Z.abs (desired - current) <= R -> limited = desired))
  /\ apply_rate_limits 5 10 test_safety_config = 7
  /\ apply_rate_limits 10 2 test_safety_config = 8.
Proof.
  split; [|split; reflexivity].
  intros current desired safety_config R HR limited. subst limited.
  unfold apply_rate_limits. fold R.
  destruct (current <? desired) eqn:E1; [apply Z.ltb_lt in E1; lia|].
  destruct (desired <? current) eqn:E2; [apply Z.ltb_lt in E2; lia|].
  apply Z.ltb_ge in E1, E2. lia.
Qed.

Lemma rate_limit_is_clamp_witness :
  apply_rate_limits 5 10 test_safety_config = Z.max (5 - 2) (Z.min (5 + 2) 10) /\
  Z.abs (apply_rate_limits 5 10 test_safety_config - 5) <= 2.
Proof.
  destruct (proj1 rate_limit_is_clamp 5 10 test_safety_config) as (H1 & H2 & _).
  - cbn. lia.
  - split; [exact H1 | exact H2].
Defined.

(** ** Duration parsing (C3) *)

Lemma is_digit_code (c : ascii) : is_digit c = true -> 48 <= code c <= 57.
Proof. unfold is_digit. lia. Qed.

Lemma digit_not_space (c : ascii) : is_digit c = true -> is_space c = false.
Proof. intros H%is_digit_code. unfold is_space. lia. Qed.

Lemma code_eqb (c d : ascii) : Ascii.eqb c d = true -> code c = code d.
Proof. now intros ->%Ascii.eqb_eq. Qed.

Lemma digit_not_char (c d : ascii) :
  is_digit c = true -> (code d < 48 \/ 57 < code d) -> Ascii.eqb c d = false.
Proof.
  intros H%is_digit_code Hd. destruct (Ascii.eqb c d) eqn:E; [|reflexivity].
  apply code_eqb in E. lia.
Qed.

Lemma scan_digits_digits (ds : list ascii) (acc : Z) (after_digit : bool) :
  forallb is_digit ds = true ->
  (ds <> [] \/ after_digit = true) ->
  scan_digits ds acc after_digit =
  Some (fold_left (fun a c => 10 * a + digit_value c) ds acc).
Proof.
  revert acc after_digit. induction ds as [|c ds IH]; intros acc b Hall Hne.
  - destruct Hne as [Hne | ->]; [congruence | reflexivity].
  - cbn [forallb] in Hall. apply andb_prop in Hall as [Hc Hds].
    cbn [scan_digits fold_left]. rewrite Hc. apply IH; auto.
Qed.

Lemma lstrip_no_space (c : ascii) (cs : list ascii) :
  is_space c = false -> lstrip (c :: cs) = c :: cs.
Proof. intros H. cbn. now rewrite H. Qed.

Lemma strip_digits (ds : list ascii) : forallb is_digit ds = true -> strip ds = ds.
Proof.
  intros Hall. unfold strip.
  assert (Hl : forall l, forallb is_digit l = true -> lstrip l = l).
  { intros [|c l] H; [reflexivity|].
    cbn [forallb] in H. apply andb_prop in H as [Hc _].
    apply lstrip_no_space, digit_not_space, Hc. }
  rewrite (Hl ds Hall). rewrite Hl.
  - apply rev_involutive.
  - rewrite forallb_forall in *. intros x Hx. apply Hall. now apply in_rev.
Qed.

Lemma filter_digits (ds : list ascii) :
  forallb is_digit ds = true -> List.filter is_digit ds = ds.
Proof.
  induction ds as [|c ds IH]; [reflexivity|].
  cbn [forallb List.filter]. intros [Hc Hds]%andb_prop. rewrite Hc. f_equal. auto.
Qed.

Lemma int_of_chars_digits (ds : list ascii) :
  ds <> [] -> forallb is_digit ds = true -> len ds <= max_str_digits ->
  int_of_chars ds = Ok (decimal_value ds).
Proof.
  intros Hne Hall Hlen. unfold int_of_chars. rewrite strip_digits by assumption.
  destruct ds as [|c ds]; [congruence|].
  pose proof Hall as Hall'. cbn [forallb] in Hall'. apply andb_prop in Hall' as [Hc _].
  rewrite (digit_not_char c "+" Hc) by (left; reflexivity).
  rewrite (digit_not_char c "-" Hc) by (left; reflexivity).
  rewrite scan_digits_digits by auto.
  rewrite filter_digits by assumption.
  apply Z.ltb_ge in Hlen. rewrite Hlen.
  unfold decimal_value. f_equal. lia.
Qed.

Lemma last_char_app (cs : list ascii) (u : ascii) :
  last_char (string_of_list_ascii (cs ++ [u])) = Some u.
Proof.
  induction cs as [|c cs IH]; [reflexivity|].
  cbn [app string_of_list_ascii last_char]. rewrite IH.
  destruct (string_of_list_ascii (cs ++ [u])) eqn:E; [|reflexivity].
  destruct cs; discriminate.
Qed.

Lemma str_init_app (cs : list ascii) (u : ascii) :
  str_init (string_of_list_ascii (cs ++ [u])) = string_of_list_ascii cs.
Proof.
  unfold str_init. now rewrite list_ascii_of_string_of_list_ascii, removelast_last.
Qed.

Lemma units_get_unit (u : ascii) (dflt : Z) :
  is_unit u = true -> units_get u dflt = unit_factor u.
Proof.
  unfold is_unit, units_get, unit_factor.
  destruct (Ascii.eqb u "s"), (Ascii.eqb u "m"), (Ascii.eqb u "h"), (Ascii.eqb u "d");
    cbn; congruence.
Qed.

Lemma parse_duration_grammar (ds : list ascii) (u : ascii) :
  ds <> [] -> forallb is_digit ds = true -> len ds <= max_str_digits ->
  is_unit u = true ->
  _parse_duration (string_of_list_ascii (ds ++ [u])) =
  Ok (decimal_value ds * unit_factor u).
Proof.
  intros Hne Hall Hlen Hu. unfold _parse_duration, str_last.
  rewrite last_char_app. cbn [rbind]. rewrite str_init_app.
  unfold int_of_str. rewrite list_ascii_of_string_of_list_ascii.
  rewrite int_of_chars_digits by assumption.
  now rewrite units_get_unit.
Qed.

Lemma matches_duration_grammar_inv (s : string) (ds : list ascii) (u : ascii) :
  matches_duration_grammar s = true ->
  list_ascii_of_string s = ds ++ [u] ->
  ds <> [] /\ forallb is_digit ds = true /\ is_unit u = true.
Proof.
  unfold matches_duration_grammar. intros Hm Hs. rewrite Hs, rev_unit in Hm.
  apply andb_prop in Hm as [Hm Hd]. apply andb_prop in Hm as [Hu Hlen].
  repeat split; try assumption.
  - intros ->. discriminate.
  - rewrite forallb_forall in *. intros x Hx. apply Hd. now apply in_rev in Hx.
Qed.

Lemma scan_digits_some (cs : list ascii) (acc : Z) (after_digit : bool) (n : Z) :
  scan_digits cs acc after_digit = Some n ->
  forallb int_char cs = true /\
  (after_digit = false -> existsb is_digit cs = true).
Proof.
  revert acc after_digit. induction cs as [|c cs IH]; intros acc b H.
  - cbn in H. destruct b; [|discriminate]. split; [reflexivity | discriminate].
  - cbn [scan_digits] in H. cbn [forallb existsb]. unfold int_char at 1.
    destruct (is_digit c) eqn:Ed.
    + apply IH in H as [Hall _]. rewrite Hall. split; reflexivity.
    + destruct (Ascii.eqb c "_") eqn:Eu; [|discriminate].
      destruct b; [|discriminate].
      apply IH in H as [Hall Hex]. rewrite Hall, orb_true_r.
      split; [reflexivity | discriminate].
Qed.

Lemma lstrip_decomp (cs : list ascii) :
  exists pre, cs = pre ++ lstrip cs /\ forallb is_space pre = true.
Proof.
  induction cs as [|c cs (pre & Hcs & Hpre)].
  - now exists [].
  - cbn [lstrip]. destruct (is_space c) eqn:E.
    + exists (c :: pre). cbn [forallb app]. rewrite E, Hpre. now rewrite <- Hcs.
    + now exists [].
Qed.

Lemma strip_decomp (cs : list ascii) :
  exists pre post,
    cs = pre ++ strip cs ++ post /\
    forallb is_space pre = true /\ forallb is_space post = true.
Proof.
  destruct (lstrip_decomp cs) as (pre & Hcs & Hpre).
  destruct (lstrip_decomp (rev (lstrip cs))) as (post & Hr & Hpost).
  exists pre, (rev post). unfold strip. repeat split; try assumption.
  - rewrite <- rev_app_distr, <- Hr, rev_involutive. exact Hcs.
  - rewrite forallb_forall in *. intros x Hx. apply Hpost. now apply in_rev.
Qed.

Lemma space_is_int_char (l : list ascii) :
  forallb is_space l = true -> forallb int_char l = true.
Proof.
  rewrite !forallb_forall. intros H x Hx. unfold int_char.
  rewrite (H x Hx). now rewrite orb_true_r.
Qed.

(** What [int] accepts is made of digits, signs, underscores and white
    space, and holds a digit. *)
Lemma int_of_chars_ok (cs : list ascii) (v : Z) :
  int_of_chars cs = Ok v ->
  forallb int_char cs = true /\ existsb is_digit cs = true.
Proof.
  unfold int_of_chars. intros H.
  destruct (strip_decomp cs) as (pre & post & Hcs & Hpre & Hpost).
  assert (Hbody : forallb int_char (strip cs) = true /\ existsb is_digit (strip cs) = true).
  { destruct (strip cs) as [|c body].
    - cbn in H. discriminate.
    - destruct (Ascii.eqb c "+") eqn:Ep; [|destruct (Ascii.eqb c "-") eqn:Em].
      + destruct (scan_digits body 0 false) as [n|] eqn:Es; [|discriminate].
        apply scan_digits_some in Es as [Hall Hex].
        cbn [forallb existsb]. unfold int_char at 1.
        rewrite Ep, Hall, (Hex eq_refl), !orb_true_r. now split.
      + destruct (scan_digits body 0 false) as [n|] eqn:Es; [|discriminate].
        apply scan_digits_some in Es as [Hall Hex].
        cbn [forallb existsb]. unfold int_char at 1.
        rewrite Em, Hall, (Hex eq_refl), !orb_true_r. now split.
      + destruct (scan_digits (c :: body) 0 false) as [n|] eqn:Es; [|discriminate].
        apply scan_digits_some in Es as [Hall Hex]. split; [exact Hall | now apply Hex]. }
  destruct Hbody as [Hall Hex]. rewrite Hcs. split.
  - rewrite !forallb_app, Hall, (space_is_int_char _ Hpre), (space_is_int_char _ Hpost).
    reflexivity.
  - rewrite !existsb_app, Hex. now rewrite orb_true_r.
Qed.

Lemma int_of_chars_raises (cs : list ascii) (e : exn) :
  int_of_chars cs = Raise e -> e = ValueError.
Proof.
  unfold int_of_chars.
  destruct (strip cs) as [|c body].
  - cbn. congruence.
  - destruct (Ascii.eqb c "+"); [|destruct (Ascii.eqb c "-")];
      match goal with
      | |- context [scan_digits ?l 0 false] =>
          destruct (scan_digits l 0 false);
          [destruct (max_str_digits <? len (List.filter is_digit l))|]
      end;
      congruence.
Qed.

Lemma parse_duration_not_300 :
  ~ (forall s : string,
        matches_duration_grammar s = false -> _parse_duration s = Ok 300).
Proof.
  intros claim. specialize (claim "5x"%string eq_refl). discriminate.
Qed.

(** C3, amended.  A string that matches [^([0-9]+)(s|m|h|d)$] with integer
    part [n], of no more digits than [int] converts, and unit [u] parses to
    [n] times the factor of [u].  For any string that is not empty, the
    result follows what [int] makes of the part before the last character: where [int] accepts that part with
    value [v] the result is [v] times the factor of the last character, 1
    when it is no unit; where [int] rejects it the result is 300, which is so
    in particular when that part holds a character other than a digit, a
    sign, an underscore or white space, or holds no digit at all. *)
Theorem parse_duration_cases :
  (forall (s : string) (digits : list ascii) (u : ascii),
      matches_duration_grammar s = true ->
      list_ascii_of_string s = digits ++ [u] ->
      len digits <= max_str_digits ->
      _parse_duration s = Ok (decimal_value digits * unit_factor u))
  /\
  (forall (s : string) (u : ascii),
      str_last s = Ok u ->
      let before := list_ascii_of_string (str_init s) in
      (forall v, int_of_chars before = Ok v ->
                 _parse_duration s = Ok (v * units_get u 1)) /\
      (int_of_chars before = Raise ValueError -> _parse_duration s = Ok 300) /\
      (forallb int_char before = false \/ existsb is_digit before = false ->
       _parse_duration s = Ok 300)).
Proof.
  split.
  - intros s digits u Hm Hs Hlen.
    destruct (matches_duration_grammar_inv s digits u Hm Hs) as (Hne & Hall & Hu).
    rewrite <- (string_of_list_ascii_of_string s), Hs.
    now apply parse_duration_grammar.
  - intros s u Hlast before.
    assert (Hrej : int_of_chars before = Raise ValueError -> _parse_duration s = Ok 300).
    { intros H. unfold _parse_duration. rewrite Hlast. cbn [rbind].
      unfold int_of_str. fold before. now rewrite H. }
    split; [|split].
    + intros v H. unfold _parse_duration. rewrite Hlast. cbn [rbind].
      unfold int_of_str. fold before. now rewrite H.
    + exact Hrej.
    + intros Hbad. apply Hrej.
      destruct (int_of_chars before) as [v|e] eqn:E.
      * apply int_of_chars_ok in E as [Hall Hex].
        destruct Hbad as [Hbad | Hbad]; congruence.
      * f_equal. now apply int_of_chars_raises in E.
Qed.

Lemma parse_duration_cases_witness :
  _parse_duration "30s" = Ok (decimal_value ["3"; "0"]%char * unit_factor "s") /\
  _parse_duration "5x" = Ok (5 * units_get "x" 1) /\
  _parse_duration "fivem" = Ok 300.
Proof.
  split; [|split].
  - apply (proj1 parse_duration_cases "30s"%string ["3"; "0"]%char "s"%char);
      [reflexivity | reflexivity | discriminate].
  - apply (proj2 parse_duration_cases "5x"%string "x"%char eq_refl). reflexivity.
  - apply (proj2 parse_duration_cases "fivem"%string "m"%char eq_refl). left. reflexivity.
Defined.

(** ** The cooldown gate (C7) *)

Lemma cooldown_setting_direction (safety_config : SafetyConfig) (up : bool) :
  cooldown_setting safety_config (direction_name up) = selected_cooldown safety_config up.
Proof. destruct up; reflexivity. Qed.

Lemma can_scale_true_iff scaler_name safety_config direction w :
  fst (can_scale scaler_name safety_config direction w) = Ok true <->
  exists c, _parse_duration (cooldown_setting safety_config direction) = Ok c /\
            (inject_Z c <= now w - last_scale_of w scaler_name)%Q.
Proof.
  rewrite can_scale_run.
  destruct (_parse_duration _) as [c|e]; cbn [fst].
  - split.
    + intros H. exists c. split; [reflexivity|].
      apply Qlt_bool_false. injection H as H. now apply negb_true_iff in H.
    + intros (c' & Hc & Hle). injection Hc as <-.
      apply Qlt_bool_false in Hle. now rewrite Hle.
  - split; [discriminate | intros (c & Hc & _); discriminate].
Qed.

Lemma can_scale_false_iff scaler_name safety_config direction w :
  fst (can_scale scaler_name safety_config direction w) = Ok false <->
  exists c, _parse_duration (cooldown_setting safety_config direction) = Ok c /\
            (now w - last_scale_of w scaler_name < inject_Z c)%Q.
Proof.
  rewrite can_scale_run.
  destruct (_parse_duration _) as [c|e]; cbn [fst].
  - split.
    + intros H. exists c. split; [reflexivity|].
      apply Qlt_bool_true. injection H as H. now apply negb_false_iff in H.
    + intros (c' & Hc & Hle). injection Hc as <-.
      apply Qlt_bool_true in Hle. now rewrite Hle.
  - split; [discriminate | intros (c & Hc & _); discriminate].
Qed.




(** ** The ledger after one reconciliation (C8) *)

Lemma added_inj (w w' : World) (new1 new2 : list event) :
  added w w' new1 -> added w w' new2 -> new1 = new2.
Proof.
  unfold added. intros H1 H2. rewrite H1 in H2. now apply app_inv_tail in H2.
Qed.

Lemma no_patch_no_accepted (l : list event) :
  forallb (fun e => negb (is_patch e)) l = true -> existsb is_accepted_patch l = false.
Proof.
  induction l as [|e l IH]; [reflexivity|].
  cbn [forallb existsb]. intros [He Hl]%andb_prop. rewrite (IH Hl).
  destruct e as [| ? ? ? [] |]; try reflexivity; discriminate.
Qed.

(** The ledger and the trace after one reconciliation: either a patch was
    accepted and the ledger holds the reading of the clock that followed it,
    or no patch was accepted and the ledger is as before. *)
Lemma reconcile_ledger api scaler w :
  let w' := snd (_reconcile_scaler api scaler w) in
  let key := name (metadata scaler) in
  exists new,
    added w w' new /\
    clock w' = clock w /\
    (reads w <= reads w')%nat /\
    ((existsb is_accepted_patch new = true /\
      last_scale_operations w' =
        <[key := clock w (S (reads w))]> (last_scale_operations w) /\
      exists dep desired limited c,
        reaches_patch api scaler w dep desired limited c /\
        patch_namespaced_deployment api (deployment_name dep)
          (scaler_namespace scaler) limited = Ok tt)
     \/
     (existsb is_accepted_patch new = false /\
      last_scale_operations w' = last_scale_operations w)).
Proof.
  intros w' key. subst w'.
  destruct (reconcile_cases api scaler w) as [Hclock [Hq | Hp]].
  - destruct Hq as (Hl & Hr & new & Hadd & Hnone).
    exists new. repeat split; try assumption; try lia.
    right. split; [now apply no_patch_no_accepted | assumption].
  - destruct Hp as (dep & desired & limited & c & Hreach & Hcase). cbv zeta in Hcase.
    destruct Hcase as [(e & Hpatch & Hl & Hr & rest & Hadd & Hnone)
                      | (Hpatch & Hl & Hr & rest & Hadd & Hnone)].
    + eexists. repeat split; [exact Hadd | assumption | lia |].
      right. split; [|assumption]. cbn [existsb is_accepted_patch].
      now apply no_patch_no_accepted.
    + eexists. repeat split; [exact Hadd | assumption | lia |].
      left. split; [reflexivity|]. split; [assumption|].
      exists dep, desired, limited, c. now split.
Qed.

(** C8.  In a reconciliation of one scaler the ledger entry of the scaler is
    written if and only if a patch of the replica count is sent and
    accepted: either the requests the reconciliation adds hold an accepted
    patch and the ledger is the old one with the entry set to the reading of
    the clock after the patch, or they hold none and the ledger is unchanged.
    When the desired count of the policy is the current one, or the
    rate-limited count is the current one, or the patch raises, the ledger is
    unchanged and no accepted patch is among the requests. *)
Theorem ledger_written_iff_patched :
  (forall (api : Orchestrator) (scaler : Scaler) (w : World),
      let w' := snd (_reconcile_scaler api scaler w) in
      let key := name (metadata scaler) in
      exists new,
        added w w' new /\
        ((existsb is_accepted_patch new = true /\
          last_scale_operations w' =
            <[key := clock w (S (reads w))]> (last_scale_operations w))
         \/
         (existsb is_accepted_patch new = false /\
          last_scale_operations w' = last_scale_operations w)))
  /\
  (forall (api : Orchestrator) (scaler : Scaler) (w : World)
          (tn : string) (dep : Deployment) (desired : Z),
      let w' := snd (_reconcile_scaler api scaler w) in
      let sp := scaler_spec scaler in
      let current := or_else (replicas dep) 1 in
      let limited := apply_rate_limits current desired (scaler_safety scaler) in
      target_name (get (targetRef sp) empty_target_ref) = Some tn ->
      read_namespaced_deployment api tn (scaler_namespace scaler) = Ok dep ->
      calculate_desired_replicas current
        (_collect_metrics (get (metrics sp) []) (name (metadata scaler)))
        (get (policy sp) empty_policy) sp = Ok desired ->
      desired = current \/
      limited = current \/
      (exists e, patch_namespaced_deployment api (deployment_name dep)
                   (scaler_namespace scaler) limited = Raise e) ->
      last_scale_operations w' = last_scale_operations w /\
      forall new, added w w' new -> existsb is_accepted_patch new = false).
Proof.
  split.
  - intros api scaler w w' key.
    destruct (reconcile_ledger api scaler w) as (new & Hadd & _ & _ & [H | H]).
    + exists new. split; [assumption|]. left. destruct H as (H1 & H2 & _). now split.
    + exists new. split; [assumption|]. now right.
  - intros api scaler w tn dep desired w' sp current limited Htn Hread Hcalc Hnoop.
    destruct (reconcile_ledger api scaler w) as (new & Hadd & _ & _ & [H | H]).
    + exfalso. destruct H as (_ & _ & dep' & desired' & limited' & c & Hreach & Hpatch).
      destruct Hreach as ((tn' & Htn' & Hread') & Hcalc' & Hne & _ & _ & Hlim & Hmoves).
      fold sp in Htn', Hcalc'. rewrite Htn in Htn'. injection Htn' as <-.
      rewrite Hread in Hread'. injection Hread' as <-.
      fold current in Hcalc', Hne, Hlim, Hmoves.
      rewrite Hcalc in Hcalc'. injection Hcalc' as <-.
      fold limited in Hlim. subst limited'.
      destruct Hnoop as [Hd | [Hl | (e & He)]]; [contradiction | contradiction |].
      rewrite He in Hpatch. discriminate.
    + destruct H as (Hnone & Hl). split; [assumption|].
      intros new' Hadd'. now rewrite (added_inj _ _ _ _ Hadd' Hadd).
Qed.

Lemma ledger_written_iff_patched_witness :
  let api := refusing (web_deployment (Some 4)) in
  let scaler := web_scaler (slo_policy 50) test_safety_config in
  let w := fresh_world (ticking 1000) in
  last_scale_operations (snd (_reconcile_scaler api scaler w)) = last_scale_operations w.
Proof.
  intros api scaler w.
  apply (proj2 ledger_written_iff_patched api scaler w "web"%string
           (web_deployment (Some 4)) 6).
  - reflexivity.
  - reflexivity.
  - reflexivity.
  - right. right. exists (ApiException 409). reflexivity.
Defined.

(** ** Cooldown between two mutations (C9) *)

Section Cooldown.

Variable clock0 : nat -> Q.
Variable n0 : nat.
Variable key : string.
Hypothesis clock0_monotone : monotone clock0.

Lemma recorded_since_step api scaler w :
  recorded_since clock0 n0 key w ->
  recorded_since clock0 n0 key (snd (_reconcile_scaler api scaler w)).
Proof.
  intros (Hclock & Hreads & t & Ht & Hle).
  destruct (reconcile_ledger api scaler w) as (new & _ & Hc & Hr & Hcase).
  split; [congruence|]. split; [lia|].
  destruct Hcase as [(_ & Hl & _) | (_ & Hl)]; rewrite Hl.
  - destruct (decide (name (metadata scaler) = key)) as [-> | Hne].
    + eexists. split; [apply lookup_insert_eq|].
      rewrite Hclock. apply clock0_monotone. lia.
    + exists t. split; [now rewrite lookup_insert_ne | assumption].
  - now exists t.
Qed.

Lemma recorded_since_all ticks w :
  recorded_since clock0 n0 key w ->
  recorded_since clock0 n0 key (reconcile_all ticks w).
Proof.
  revert w. induction ticks as [|[api scaler] ticks IH]; intros w Hw; [assumption|].
  cbn [reconcile_all]. apply IH, recorded_since_step, Hw.
Qed.

End Cooldown.


Lemma ticking_monotone (t0 : Z) : monotone (ticking t0).
Proof.
  intros i j Hij. unfold ticking. rewrite <- Zle_Qle. lia.
Qed.


(** ** A deployment without replicas (C10) *)

Lemma or_else_nonzero (r : option Z) : or_else r 1 <> 0.
Proof. destruct r as [[| |]|]; cbn; lia. Qed.



(** * Further properties of the code *)

(** ** The slo policy: edges and monotonicity *)

Lemma int_of_float_mono (x y : Q) : (x <= y)%Q -> int_of_float x <= int_of_float y.
Proof.
  intros Hxy.
  destruct (Qlt_le_dec x 0) as [Hx | Hx]; destruct (Qlt_le_dec y 0) as [Hy | Hy].
  - rewrite !int_of_float_nonpos by lra. now apply Qceiling_resp_le.
  - rewrite int_of_float_nonpos by lra. rewrite (int_of_float_nonneg y) by lra.
    transitivity 0.
    + change 0 with (Qceiling 0). apply Qceiling_resp_le. lra.
    + change 0 with (Qfloor 0). now apply Qfloor_resp_le.
  - lra.
  - rewrite !int_of_float_nonneg by lra. now apply Qfloor_resp_le.
Qed.

Lemma clamp_mono (x y lo hi : Z) : x <= y -> clamp x lo hi <= clamp y lo hi.
Proof. unfold clamp. lia. Qed.

Lemma slo_ratio_nonneg (m T : Q) : (0 <= m)%Q -> (0 <= slo_ratio m T)%Q.
Proof.
  intros Hm. unfold slo_ratio. destruct (Qlt_bool 0 T) eqn:E; [|lra].
  apply Qlt_bool_true in E. apply Qle_shift_div_l; lra.
Qed.

Lemma slo_ratio_mono (m1 m2 T : Q) : (m1 <= m2)%Q -> (slo_ratio m1 T <= slo_ratio m2 T)%Q.
Proof.
  intros Hm. unfold slo_ratio. destruct (Qlt_bool 0 T) eqn:E; [|lra].
  apply Qlt_bool_true in E. unfold Qdiv. apply Qmult_le_compat_r; [assumption|].
  apply Qinv_le_0_compat. lra.
Qed.





(** ** The cost policy: failure, direction, stability *)

Lemma cpr_pos_eq (m : Q) (current : Z) :
  0 < current -> cpr m current = (m / inject_Z current)%Q.
Proof. intros H. unfold cpr. apply Z.ltb_lt in H. now rewrite H. Qed.

Lemma inject_Z_pos (z : Z) : 0 < z -> (0 < inject_Z z)%Q.
Proof. intros H. unfold Qlt. cbn. lia. Qed.







(** ** The rate limiter: no-op and convergence *)

(** X6.  When the desired count differs from the current one, the limited
    count is the current one exactly when [maxScaleRate] is 0.  For a rate of
    at least 1 the limited count lies strictly on the desired side of the
    current count; for a negative rate it lies on the other side. *)
Theorem rate_limit_noop_iff :
  forall (current desired : Z) (safety_config : SafetyConfig),
    let R := get (maxScaleRate safety_config) 2 in
    let limited := apply_rate_limits current desired safety_config in
    (desired <> current -> (limited = current <-> R = 0)) /\
    (1 <= R -> current < desired -> current < limited <= desired) /\
    (1 <= R -> desired < current -> desired <= limited < current) /\
    (R < 0 -> current < desired -> limited < current) /\
    (R < 0 -> desired < current -> current < limited).
Proof.
  intros current desired safety_config R limited. subst limited.
  unfold apply_rate_limits. fold R.
  destruct (current <? desired) eqn:E1; [apply Z.ltb_lt in E1; lia|].
  destruct (desired <? current) eqn:E2; [apply Z.ltb_lt in E2; lia|].
  apply Z.ltb_ge in E1, E2. lia.
Qed.

Lemma rate_limit_noop_iff_witness :
  apply_rate_limits 5 10
    {| maxScaleRate := Some 0; scaleUpCooldown := None; scaleDownCooldown := None |} = 5.
Proof.
  apply (proj1 (rate_limit_noop_iff 5 10
                  {| maxScaleRate := Some 0; scaleUpCooldown := None;
                     scaleDownCooldown := None |})).
  - lia.
  - reflexivity.
Defined.

Lemma approach_distance (n : nat) (current desired : Z) (safety_config : SafetyConfig) :
  let R := get (maxScaleRate safety_config) 2 in
  0 <= R ->
  Z.abs (desired - approach n current desired safety_config) =
  Z.max 0 (Z.abs (desired - current) - Z.of_nat n * R).
Proof.
  intros R HR. revert current. induction n as [|n IH]; intros current.
  - cbn [approach]. lia.
  - cbn [approach]. rewrite IH.
    assert (Hstep : Z.abs (desired - apply_rate_limits current desired safety_config) =
                    Z.max 0 (Z.abs (desired - current) - R)).
    { unfold apply_rate_limits. fold R.
      destruct (current <? desired) eqn:E1; [apply Z.ltb_lt in E1; lia|].
      destruct (desired <? current) eqn:E2; [apply Z.ltb_lt in E2; lia|].
      apply Z.ltb_ge in E1, E2. lia. }
    rewrite Hstep. nia.
Qed.

(** X7.  Rate-limited steps toward a fixed desired count close the distance
    by [maxScaleRate] each: after [n] steps the distance left is
    [max(0, |desired - current| - n * maxScaleRate)], so the desired count is
    reached once [n * maxScaleRate] covers the distance, and never left; with
    a rate of 0 the count does not move. *)
Theorem rate_limit_converges :
  forall (n : nat) (current desired : Z) (safety_config : SafetyConfig),
    let R := get (maxScaleRate safety_config) 2 in
    0 <= R ->
    Z.abs (desired - approach n current desired safety_config) =
      Z.max 0 (Z.abs (desired - current) - Z.of_nat n * R) /\
    (Z.abs (desired - current) <= Z.of_nat n * R ->
     approach n current desired safety_config = desired) /\
    (R = 0 -> approach n current desired safety_config = current).
Proof.
  intros n current desired safety_config R HR.
  pose proof (approach_distance n current desired safety_config HR) as Hd. fold R in Hd.
  split; [exact Hd|]. split.
  - intros Hn. lia.
  - intros HR0. clear Hd. revert current. induction n as [|n IH]; intros current; [reflexivity|].
    cbn [approach].
    assert (Hs : apply_rate_limits current desired safety_config = current).
    { unfold apply_rate_limits. fold R. rewrite HR0.
      destruct (current <? desired) eqn:E1; [apply Z.ltb_lt in E1; lia|].
      destruct (desired <? current) eqn:E2; [apply Z.ltb_lt in E2; lia|].
      apply Z.ltb_ge in E1, E2. lia. }
    rewrite Hs. apply IH.
Qed.

Lemma rate_limit_converges_witness : approach 3 5 10 test_safety_config = 10.
Proof.
  apply (rate_limit_converges 3 5 10 test_safety_config); cbn; lia.
Defined.

(** ** The cooldown gate and the ledger *)



(** X9.  After [record_scale_operation] the ledger entry of the scaler is
    the reading of the clock, the entries of all other scalers are as before,
    two readings of the clock are used and no request is sent; recording
    again replaces the entry. *)
Theorem record_scale_operation_ledger :
  forall (key : string) (w : World),
    let w1 := snd (record_scale_operation key w) in
    let w2 := snd (record_scale_operation key w1) in
    fst (ledger_get key w1) = Ok (now w) /\
    (forall other, other <> key ->
       last_scale_operations w1 !! other = last_scale_operations w !! other) /\
    last_scale_operations w2 = <[key := now w1]> (last_scale_operations w) /\
    reads w1 = S (S (reads w)) /\
    trace w1 = trace w.
Proof.
  intros key w w1 w2. subst w2 w1. rewrite !record_run.
  cbn [snd fst ledger_get last_scale_operations reads trace clock now].
  repeat split.
  - now rewrite lookup_insert_eq.
  - intros other Hne. now rewrite lookup_insert_ne.
  - apply insert_insert_eq.
Qed.

Lemma record_scale_operation_ledger_witness :
  last_scale_operations
    (snd (record_scale_operation "a" (fresh_world (ticking 1000)))) !! "b"%string = None.
Proof.
  destruct (record_scale_operation_ledger "a"%string (fresh_world (ticking 1000)))
    as (_ & H & _).
  rewrite (H "b"%string); [reflexivity | discriminate].
Defined.

(** ** Duration parsing: white space and signs *)

Lemma lstrip_spaces_app (pre l : list ascii) :
  forallb is_space pre = true -> lstrip (pre ++ l) = lstrip l.
Proof.
  induction pre as [|c pre IH]; [reflexivity|].
  cbn [forallb app lstrip]. intros [Hc Hp]%andb_prop. rewrite Hc. auto.
Qed.

Lemma lstrip_digits (ds l : list ascii) :
  ds <> [] -> forallb is_digit ds = true -> lstrip (ds ++ l) = ds ++ l.
Proof.
  destruct ds as [|c ds]; [congruence|]. intros _ H.
  cbn [forallb] in H. apply andb_prop in H as [Hc _].
  cbn [app]. apply lstrip_no_space, digit_not_space, Hc.
Qed.

Lemma strip_padded_digits (pre ds post : list ascii) :
  ds <> [] -> forallb is_digit ds = true ->
  forallb is_space pre = true -> forallb is_space post = true ->
  strip (pre ++ ds ++ post) = ds.
Proof.
  intros Hne Hds Hpre Hpost. unfold strip.
  rewrite lstrip_spaces_app, lstrip_digits by assumption.
  rewrite rev_app_distr, lstrip_spaces_app.
  - rewrite <- (app_nil_r (rev ds)), lstrip_digits, app_nil_r.
    + apply rev_involutive.
    + intros H. apply Hne. rewrite <- (rev_involutive ds), H. reflexivity.
    + rewrite forallb_forall in *. intros x Hx. apply Hds. now apply in_rev.
  - rewrite forallb_forall in *. intros x Hx. apply Hpost. now apply in_rev.
Qed.

Lemma int_of_chars_strip (a b : list ascii) :
  strip a = strip b -> int_of_chars a = int_of_chars b.
Proof. unfold int_of_chars. now intros ->. Qed.

Lemma unit_not_int_char (u : ascii) : is_unit u = true -> int_char u = false.
Proof.
  unfold is_unit. intros H.
  repeat (apply orb_prop in H as [H | H]); apply Ascii.eqb_eq in H; subst u; reflexivity.
Qed.

(** X10.  White space before the digits of a duration and between the
    digits and the unit does not change what it parses to; any character
    after the unit makes the duration malformed, and it parses to 300. *)
Theorem parse_duration_white_space :
  forall (pre digits mid : list ascii) (u : ascii),
    digits <> [] ->
    forallb is_digit digits = true ->
    len digits <= max_str_digits ->
    forallb is_space pre = true ->
    forallb is_space mid = true ->
    is_unit u = true ->
    _parse_duration (string_of_list_ascii (pre ++ digits ++ mid ++ [u]))
      = Ok (decimal_value digits * unit_factor u) /\
    (forall c : ascii,
       _parse_duration (string_of_list_ascii ((digits ++ [u]) ++ [c])) = Ok 300).
Proof.
  intros pre ds mid u Hne Hds Hlen Hpre Hmid Hu. split.
  - replace (pre ++ ds ++ mid ++ [u]) with ((pre ++ ds ++ mid) ++ [u])
      by now rewrite <- !app_assoc.
    unfold _parse_duration, str_last. rewrite last_char_app. cbn [rbind].
    rewrite str_init_app. unfold int_of_str. rewrite list_ascii_of_string_of_list_ascii.
    rewrite (int_of_chars_strip _ ds).
    + rewrite int_of_chars_digits by assumption. now rewrite units_get_unit.
    + rewrite strip_padded_digits by assumption. symmetry. now apply strip_digits.
  - intros c.
    unfold _parse_duration, str_last. rewrite last_char_app. cbn [rbind].
    rewrite str_init_app. unfold int_of_str. rewrite list_ascii_of_string_of_list_ascii.
    destruct (int_of_chars (ds ++ [u])) as [v|e] eqn:E.
    + apply int_of_chars_ok in E as [Hall _].
      rewrite forallb_app in Hall. apply andb_prop in Hall as [_ Hlast].
      cbn [forallb] in Hlast. rewrite (unit_not_int_char u Hu) in Hlast. discriminate.
    + now rewrite (int_of_chars_raises _ _ E).
Qed.

Lemma parse_duration_white_space_witness :
  _parse_duration " 30 s" = Ok (decimal_value ["3"; "0"]%char * unit_factor "s") /\
  _parse_duration "30s " = Ok 300.
Proof.
  destruct (parse_duration_white_space [" "%char] ["3"; "0"]%char [" "%char] "s"%char)
    as [H1 H2]; try reflexivity; try discriminate.
  split; [exact H1 | exact (H2 " "%char)].
Defined.

Lemma strip_signed_digits (sign : ascii) (ds : list ascii) :
  is_space sign = false -> ds <> [] -> forallb is_digit ds = true ->
  strip (sign :: ds) = sign :: ds.
Proof.
  intros Hs Hne Hds. unfold strip. rewrite lstrip_no_space by assumption.
  cbn [rev].
  assert (Hl : lstrip (rev ds ++ [sign]) = rev ds ++ [sign]).
  { destruct (rev ds) as [|c r] eqn:E.
    - exfalso. apply Hne. rewrite <- (rev_involutive ds), E. reflexivity.
    - cbn [app]. apply lstrip_no_space, digit_not_space.
      rewrite forallb_forall in Hds. apply Hds, in_rev. rewrite E. now left. }
  rewrite Hl, rev_unit. now rewrite rev_involutive.
Qed.

(** X11.  A minus sign before the digits negates the duration and a plus
    sign leaves it as it is; under a cooldown that is not positive
    [can_scale] allows every scaler whose ledger entry is not ahead of the
    clock. *)
Theorem parse_duration_signed :
  forall (digits : list ascii) (u : ascii),
    digits <> [] ->
    forallb is_digit digits = true ->
    len digits <= max_str_digits ->
    is_unit u = true ->
    _parse_duration (string_of_list_ascii (("-"%char :: digits) ++ [u]))
      = Ok (- decimal_value digits * unit_factor u) /\
    _parse_duration (string_of_list_ascii (("+"%char :: digits) ++ [u]))
      = Ok (decimal_value digits * unit_factor u) /\
    forall (key : string) (safety_config : SafetyConfig) (direction : string)
           (c : Z) (w : World),
      _parse_duration (cooldown_setting safety_config direction) = Ok c ->
      c <= 0 ->
      (last_scale_of w key <= now w)%Q ->
      fst (can_scale key safety_config direction w) = Ok true.
Proof.
  intros ds u Hne Hds Hlen Hu.
  assert (Hscan : scan_digits ds 0 false = Some (decimal_value ds))
    by (apply scan_digits_digits; auto).
  assert (Hfit : (max_str_digits <? len (List.filter is_digit ds)) = false)
    by (rewrite filter_digits by assumption; now apply Z.ltb_ge).
  split; [|split].
  - unfold _parse_duration, str_last. rewrite last_char_app. cbn [rbind].
    rewrite str_init_app. unfold int_of_str, int_of_chars.
    rewrite list_ascii_of_string_of_list_ascii.
    rewrite strip_signed_digits by (reflexivity || assumption).
    cbn [Ascii.eqb Bool.eqb]. rewrite Hscan, Hfit, units_get_unit by assumption.
    f_equal; lia.
  - unfold _parse_duration, str_last. rewrite last_char_app. cbn [rbind].
    rewrite str_init_app. unfold int_of_str, int_of_chars.
    rewrite list_ascii_of_string_of_list_ascii.
    rewrite strip_signed_digits by (reflexivity || assumption).
    cbn [Ascii.eqb Bool.eqb]. rewrite Hscan, Hfit, units_get_unit by assumption.
    f_equal; lia.
  - intros key cfg direction c w Hparse Hc Hle.
    apply can_scale_true_iff. exists c. split; [assumption|].
    assert (inject_Z c <= 0)%Q by (change 0%Q with (inject_Z 0); rewrite <- Zle_Qle; lia).
    lra.
Qed.

Lemma parse_duration_signed_witness :
  _parse_duration "-5m" = Ok (- decimal_value ["5"%char] * unit_factor "m") /\
  fst (can_scale "test-scaler"
         {| maxScaleRate := None; scaleUpCooldown := Some "-5m"%string;
            scaleDownCooldown := None |}
         "up"
         (snd (record_scale_operation "test-scaler" (fresh_world (mock_time 100 100)))))
    = Ok true.
Proof.
  destruct (parse_duration_signed ["5"%char] "m"%char) as (H1 & _ & H3);
    try reflexivity; try discriminate.
  split; [exact H1|].
  apply (H3 _ _ _ (-300)); [reflexivity | lia | vm_compute; discriminate].
Defined.

(** ** The metric plugins *)

Lemma metric_plugins_lookup (plugin_name : string) :
  metric_plugins !! plugin_name =
  if String.eqb plugin_name "prometheus" then Some PrometheusPlugin
  else if String.eqb plugin_name "redis" then Some RedisPlugin
  else None.
Proof.
  unfold metric_plugins.
  destruct (String.eqb plugin_name "prometheus") eqn:E1.
  - apply String.eqb_eq in E1. subst. apply lookup_insert_eq.
  - apply String.eqb_neq in E1. rewrite lookup_insert_ne by congruence.
    destruct (String.eqb plugin_name "redis") eqn:E2.
    + apply String.eqb_eq in E2. subst. apply lookup_insert_eq.
    + apply String.eqb_neq in E2. rewrite lookup_insert_ne by congruence.
      apply lookup_empty.
Qed.

Lemma get_metric_stub (p : MetricPlugin) (c : PluginConfig) :
  exists x, get_metric p c = Ok x /\ In x stub_samples.
Proof.
  destruct p; cbn [get_metric].
  - destruct (contains "cpu" _); [eexists; split; [reflexivity | cbn; auto]|].
    destruct (contains "memory" _); [eexists; split; [reflexivity | cbn; auto]|].
    destruct (contains "http_request" _); eexists; (split; [reflexivity | cbn; auto 6]).
  - eexists; split; [reflexivity | cbn; auto 6].
Qed.

(** X12.  [_collect_metrics] returns one sample for each entry whose plugin
    is [prometheus] or [redis], in the order of the entries, and none for the
    others; each sample is one of 75, 65, 150, 50 and 10; the result does not
    depend on the name of the scaler and is empty exactly when no entry names
    a registered plugin. *)
Theorem collect_metrics_samples :
  forall (metrics_config more : list MetricConfig) (scaler_name other_name : string),
    let collected := _collect_metrics metrics_config scaler_name in
    len collected = len (List.filter known_plugin metrics_config) /\
    Forall (fun x => In x stub_samples) collected /\
    _collect_metrics (metrics_config ++ more) scaler_name =
      collected ++ _collect_metrics more scaler_name /\
    _collect_metrics metrics_config other_name = collected /\
    (collected = [] <-> forallb (fun mc => negb (known_plugin mc)) metrics_config = true).
Proof.
  intros cfg more n n' collected. subst collected.
  assert (Hone : forall mc rest nm,
             _collect_metrics (mc :: rest) nm =
             (if known_plugin mc
              then match get_metric
                           (match plugin mc with
                            | Some p => if String.eqb p "prometheus"
                                        then PrometheusPlugin else RedisPlugin
                            | None => RedisPlugin
                            end)
                           (get (config mc) empty_plugin_config) with
                   | Ok v => [v]
                   | Raise _ => []
                   end
              else []) ++ _collect_metrics rest nm).
  { intros mc rest nm. cbn [_collect_metrics]. unfold known_plugin.
    destruct (plugin mc) as [p|]; [|reflexivity].
    rewrite metric_plugins_lookup.
    destruct (String.eqb p "prometheus"); [reflexivity|].
    destruct (String.eqb p "redis"); reflexivity. }
  induction cfg as [|mc cfg (IHlen & IHin & IHapp & IHname & IHnil)].
  - repeat split; try reflexivity; constructor.
  - rewrite <- app_comm_cons, !Hone. cbn [List.filter forallb].
    destruct (known_plugin mc) eqn:Ek; cbn [negb andb].
    + destruct (get_metric_stub
                  (match plugin mc with
                   | Some p => if String.eqb p "prometheus"
                               then PrometheusPlugin else RedisPlugin
                   | None => RedisPlugin
                   end) (get (config mc) empty_plugin_config)) as (x & Hx & Hin).
      rewrite Hx. cbn [app]. repeat split.
      * unfold len in *. cbn [length]. lia.
      * constructor; assumption.
      * now rewrite IHapp.
      * now rewrite IHname.
      * discriminate.
      * discriminate.
    + cbn [app]. repeat split; try assumption; apply IHnil.
Qed.

Lemma collect_metrics_samples_witness :
  _collect_metrics
    [ {| plugin := Some "statsd"%string; config := None |};
      {| plugin := None; config := None |} ] "web-scaler" = [].
Proof.
  apply (collect_metrics_samples
           [ {| plugin := Some "statsd"%string; config := None |};
             {| plugin := None; config := None |} ] [] "web-scaler"%string ""%string).
  reflexivity.
Defined.

Lemma append_cons (c : ascii) (s t : string) :
  (String c s ++ t)%string = String c (s ++ t)%string.
Proof. reflexivity. Qed.

Lemma prefix_iff (needle haystack : string) :
  String.prefix needle haystack = true <->
  exists after : string, haystack = (needle ++ after)%string.
Proof.
  revert haystack. induction needle as [|c needle IH]; intros haystack.
  - split; [intros _; now exists haystack | intros _; now destruct haystack].
  - destruct haystack as [|d haystack]; cbn [String.prefix].
    + split; [discriminate | intros (after & H); discriminate].
    + destruct (ascii_dec c d) as [-> | Hne].
      * rewrite IH. split; intros (after & H); exists after;
          rewrite append_cons in *; congruence.
      * split; [discriminate |].
        intros (after & H). rewrite append_cons in H. congruence.
Qed.

Lemma contains_iff (needle haystack : string) :
  contains needle haystack = true <-> occurs_in needle haystack.
Proof.
  unfold occurs_in. induction haystack as [|d haystack IH].
  - cbn [contains]. rewrite orb_false_r, prefix_iff. split.
    + intros (after & H). now exists ""%string, after.
    + intros (before & after & H). destruct before; [now exists after | discriminate].
  - cbn [contains]. rewrite orb_true_iff, prefix_iff, IH. split.
    + intros [(after & H) | (before & after & H)].
      * now exists ""%string, after.
      * exists (String d before), after. rewrite append_cons. now rewrite H.
    + intros (before & after & H). destruct before as [|b before].
      * left. now exists after.
      * right. exists before, after. rewrite append_cons in H. congruence.
Qed.

(** X13.  The Prometheus plugin answers 75 exactly when its query contains
    [cpu]; 65 exactly when it contains [memory] and not [cpu]; 150 exactly
    when it contains [http_request] and neither of the two; 50 exactly when
    it contains none of the three.  The Redis plugin answers 10. *)
Theorem plugin_answers :
  forall (config : PluginConfig),
    let q := get (query config) ""%string in
    let answer := get_metric PrometheusPlugin config in
    (answer = Ok 75%Q <-> occurs_in "cpu" q) /\
    (answer = Ok 65%Q <-> ~ occurs_in "cpu" q /\ occurs_in "memory" q) /\
    (answer = Ok 150%Q <->
       ~ occurs_in "cpu" q /\ ~ occurs_in "memory" q /\ occurs_in "http_request" q) /\
    (answer = Ok 50%Q <->
       ~ occurs_in "cpu" q /\ ~ occurs_in "memory" q /\ ~ occurs_in "http_request" q) /\
    get_metric RedisPlugin config = Ok 10%Q.
Proof.
  intros config q answer. subst answer. cbn [get_metric]. fold q.
  rewrite <- !contains_iff.
  destruct (contains "cpu" q), (contains "memory" q), (contains "http_request" q);
    repeat split; try discriminate; try reflexivity; try tauto;
    try (intros [H _]; try discriminate; exfalso; now apply H);
    try (intros (H1 & H2 & H3); try discriminate; exfalso; (now apply H1) || (now apply H2) || (now apply H3));
    try (intros (H1 & H2); try discriminate; exfalso; (now apply H1) || (now apply H2)).
Qed.

Lemma plugin_answers_witness :
  get_metric PrometheusPlugin
    {| query := Some "avg(memory_bytes) / avg(cpu_seconds)"%string;
       host := None; queue_name := None |} = Ok 75%Q.
Proof.
  apply (plugin_answers {| query := Some "avg(memory_bytes) / avg(cpu_seconds)"%string;
                           host := None; queue_name := None |}).
  exists "avg(memory_bytes) / avg("%string, "_seconds)"%string. reflexivity.
Defined.

(** ** The reconciler: what it sends and what it leaves alone *)

Lemma reconcile_returns (api : Orchestrator) (scaler : Scaler) (w : World) :
  fst (_reconcile_scaler api scaler w) = Ok tt.
Proof.
  unfold _reconcile_scaler, try_except.
  match goal with |- fst (match ?b with _ => _ end) = _ => destruct b as [[] ?] end;
    reflexivity.
Qed.

(** Closes a branch of the enumeration below: [E] holds the outcome of the
    reconciliation and [new] the requests it added. *)
Ltac close_with E new :=
  inversion E; subst; cbn;
  split; [reflexivity|];
  exists new; split; [reflexivity | constructor; auto].


Lemma direction_of_name (current desired : Z) :
  direction_of current desired = direction_name (current <? desired).
Proof. reflexivity. Qed.

(** X15.  A patch that a reconciliation sends goes to the deployment it
    read, under that deployment's own name and in the namespace of the
    scaler; the count it asks for is never the current one and, for
    [maxScaleRate >= 0], is within [maxScaleRate] of it. *)
Theorem reconcile_patch_target :
  forall (api : Orchestrator) (scaler : Scaler) (w : World) (new : list event)
         (tname ns : string) (n : Z) (answer : result unit),
    added w (snd (_reconcile_scaler api scaler w)) new ->
    In (PatchReplicas tname ns n answer) new ->
    exists (dep : Deployment) (desired c : Z),
      let current := or_else (replicas dep) 1 in
      let R := get (maxScaleRate (scaler_safety scaler)) 2 in
      reaches_patch api scaler w dep desired n c /\
      tname = deployment_name dep /\
      ns = scaler_namespace scaler /\
      answer = patch_namespaced_deployment api tname ns n /\
      n <> current /\
      (0 <= R -> Z.abs (n - current) <= R).
Proof.
  intros api scaler w new tname ns n answer Hadd Hin.
  destruct (reconcile_cases api scaler w) as [_ [Hq | Hp]].
  - destruct Hq as (_ & _ & new' & Hadd' & Hnone).
    rewrite (added_inj _ _ _ _ Hadd Hadd') in Hin.
    rewrite forallb_forall in Hnone. apply Hnone in Hin. discriminate.
  - destruct Hp as (dep & desired & limited & c & Hreach & Hcase). cbv zeta in Hcase.
    assert (Hfacts : PatchReplicas tname ns n answer =
                     PatchReplicas (deployment_name dep) (scaler_namespace scaler) limited
                       (patch_namespaced_deployment api (deployment_name dep)
                          (scaler_namespace scaler) limited)).
    { destruct Hcase as [(e & Hpatch & _ & _ & rest & Hadd' & Hnone)
                        | (Hpatch & _ & _ & rest & Hadd' & Hnone)];
        rewrite (added_inj _ _ _ _ Hadd Hadd') in Hin;
        rewrite forallb_forall in Hnone; rewrite Hpatch.
      - destruct Hin as [Heq | Hin]; [now symmetry | apply Hnone in Hin; discriminate].
      - destruct Hin as [Heq | [Heq | Hin]];
          [discriminate | now symmetry | apply Hnone in Hin; discriminate]. }
    injection Hfacts as -> -> -> ->.
    exists dep, desired, c. cbv zeta.
    pose proof Hreach as (_ & _ & _ & _ & _ & Hlim & Hmoves).
    split; [assumption|]. split; [reflexivity|]. split; [reflexivity|].
    split; [reflexivity|]. split; [assumption|].
    intros HR. rewrite Hlim. unfold apply_rate_limits.
    destruct (_ <? desired) eqn:E1; [apply Z.ltb_lt in E1; lia|].
    destruct (desired <? _) eqn:E2; [apply Z.ltb_lt in E2; lia|].
    apply Z.ltb_ge in E1, E2. lia.
Qed.

Lemma reconcile_patch_target_witness :
  exists (dep : Deployment) (desired c : Z),
    reaches_patch (obliging (web_deployment (Some 4)))
      (web_scaler (slo_policy 50) test_safety_config) (fresh_world (ticking 1000))
      dep desired 6 c /\
    6 <> or_else (replicas dep) 1.
Proof.
  destruct (reconcile_patch_target (obliging (web_deployment (Some 4)))
              (web_scaler (slo_policy 50) test_safety_config)
              (fresh_world (ticking 1000))
              [PatchStatus "web-scaler" "default" 6 "ScalingApplied";
               PatchReplicas "web" "default" 6 (Ok tt);
               ReadDeployment "web" "default"]
              "web"%string "default"%string 6 (Ok tt))
    as (dep & desired & c & Hreach & _ & _ & _ & Hne & _).
  - vm_compute. reflexivity.
  - right. left. reflexivity.
  - exists dep, desired, c. split; assumption.
Defined.



Lemma added_trans (w w1 w2 : World) (new1 new2 : list event) :
  added w w1 new1 -> added w1 w2 new2 -> added w w2 (new2 ++ new1).
Proof. unfold added. intros H1 H2. now rewrite H2, H1, app_assoc. Qed.

(** X17.  Over any number of ticks in each of which the policy asks for the
    count the target has, no patch is sent and the ledger stays as it was. *)
Theorem steady_ticks_send_no_patch :
  forall (ticks : list (Orchestrator * Scaler)) (w : World),
    Forall steady ticks ->
    let w' := reconcile_all ticks w in
    last_scale_operations w' = last_scale_operations w /\
    exists new, added w w' new /\ forallb (fun e => negb (is_patch e)) new = true.
Proof.
  intros ticks w Hsteady. revert w.
  induction Hsteady as [|[api scaler] ticks Hs _ IH]; intros w; cbn [reconcile_all].
  - split; [reflexivity|]. now exists [].
  - destruct (IH (snd (_reconcile_scaler api scaler w))) as (Hl & new2 & Hadd2 & Hn2).
    destruct (reconcile_cases api scaler w) as [_ [Hq | Hp]].
    + destruct Hq as (Hl1 & _ & new1 & Hadd1 & Hn1).
      split; [congruence|].
      exists (new2 ++ new1). split; [eapply added_trans; eassumption|].
      now rewrite forallb_app, Hn2, Hn1.
    + exfalso. destruct Hp as (dep & desired & limited & c & Hreach & _).
      destruct Hreach as ((tn & Htn & Hread) & Hcalc & Hne & _).
      cbv zeta in Hs. rewrite (Hs tn dep Htn Hread) in Hcalc. congruence.
Qed.

Lemma steady_ticks_send_no_patch_witness :
  let tick := (obliging (web_deployment (Some 4)),
               web_scaler (slo_policy 75) test_safety_config) in
  let w := fresh_world (ticking 1000) in
  last_scale_operations (reconcile_all [tick; tick] w) = last_scale_operations w.
Proof.
  intros tick w.
  apply (steady_ticks_send_no_patch [tick; tick] w).
  assert (Hs : steady tick).
  { intros tn dep _ Hread. cbn in Hread. injection Hread as <-. reflexivity. }
  repeat constructor; exact Hs.
Defined.

(** X18.  A reconciliation without a target name sends nothing.  When the
    read of the target fails, no sample is collected, the policy raises or
    the cooldown of the direction cannot be parsed, the reconciliation ends
    after the read: no patch and no status patch is sent, the clock is not
    read and the ledger is as before. *)
Theorem reconcile_swallows_errors :
  forall (api : Orchestrator) (scaler : Scaler) (w : World),
    let sp := scaler_spec scaler in
    let ns := scaler_namespace scaler in
    let key := name (metadata scaler) in
    let target := target_name (get (targetRef sp) empty_target_ref) in
    let samples := _collect_metrics (get (metrics sp) []) key in
    (target = None \/ target = Some ""%string ->
     _reconcile_scaler api scaler w = (Ok tt, w)) /\
    (forall tn, target = Some tn -> tn <> ""%string ->
       let after_read := (Ok tt, sent (ReadDeployment tn ns) w) in
       (forall e, read_namespaced_deployment api tn ns = Raise e ->
          _reconcile_scaler api scaler w = after_read) /\
       (forall dep, read_namespaced_deployment api tn ns = Ok dep ->
          let current := or_else (replicas dep) 1 in
          let answer :=
            calculate_desired_replicas current samples (get (policy sp) empty_policy) sp in
          (samples = [] -> _reconcile_scaler api scaler w = after_read) /\
          (samples <> [] -> (exists e, answer = Raise e) ->
           _reconcile_scaler api scaler w = after_read) /\
          (forall desired e,
             samples <> [] -> answer = Ok desired -> desired <> current ->
             _parse_duration
               (cooldown_setting (scaler_safety scaler) (direction_of current desired))
               = Raise e ->
             _reconcile_scaler api scaler w = after_read))).
Proof.
  intros api scaler w sp ns key target samples.
  assert (Hunf : _reconcile_scaler api scaler w =
                 try_except
                   (if falsy_str target then ret tt
                    else
                      let target_name := get target ""%string in
                      let! _ := emit (ReadDeployment target_name ns) in
                      let! deployment := lift (read_namespaced_deployment api target_name ns) in
                      let current_replicas := or_else (replicas deployment) 1 in
                      match samples with
                      | [] => ret tt
                      | _ :: _ =>
                          let! desired_replicas :=
                            lift (calculate_desired_replicas current_replicas samples
                                    (get (policy sp) empty_policy) sp) in
                          if desired_replicas =? current_replicas then
                            _update_scaler_status api key ns current_replicas
                              (uid deployment) "ScalingApplied"
                          else
                            let direction := direction_of current_replicas desired_replicas in
                            let safety_config := scaler_safety scaler in
                            let! allowed := can_scale key safety_config direction in
                            if negb allowed then
                              _update_scaler_status api key ns current_replicas
                                (uid deployment) "CooldownActive"
                            else
                              let limited_replicas :=
                                apply_rate_limits current_replicas desired_replicas
                                  safety_config in
                              let! _ :=
                                (if negb (limited_replicas =? current_replicas) then
                                   let! _ := _scale_deployment api deployment
                                               limited_replicas ns in
                                   record_scale_operation key
                                 else ret tt) in
                              _update_scaler_status api key ns limited_replicas
                                (uid deployment) "ScalingApplied"
                      end) w) by reflexivity.
  rewrite Hunf. clear Hunf. clearbody target samples. unfold try_except.
  split.
  - intros [H | H]; rewrite H; reflexivity.
  - intros tn H Hne. cbv zeta. rewrite H.
    assert (Hf : falsy_str (Some tn) = false) by (cbn; now apply String.eqb_neq).
    rewrite Hf. cbn [get]. unfold bind, lift, emit, ret.
    split.
    + intros e He. rewrite He. reflexivity.
    + intros dep Hdep. rewrite Hdep. cbv zeta. split; [|split].
      * intros Hs. rewrite Hs. reflexivity.
      * intros Hs (e & He). destruct samples as [|x l] eqn:Es; [congruence|].
        now rewrite He.
      * intros desired e Hs Hans Hd Hparse.
        destruct samples as [|x l] eqn:Es; [congruence|].
        rewrite Hans. apply Z.eqb_neq in Hd. rewrite Hd.
        rewrite can_scale_run. now rewrite Hparse.
Qed.

Lemma reconcile_swallows_errors_witness :
  _reconcile_scaler (obliging (web_deployment (Some 4)))
    (web_scaler (cost_policy 0) test_safety_config) (fresh_world (ticking 1000))
  = (Ok tt, sent (ReadDeployment "web" "default") (fresh_world (ticking 1000))).
Proof.
  destruct (reconcile_swallows_errors (obliging (web_deployment (Some 4)))
              (web_scaler (cost_policy 0) test_safety_config)
              (fresh_world (ticking 1000))) as [_ H].
  destruct (H "web"%string eq_refl) as [_ H2]; [discriminate|].
  destruct (H2 (web_deployment (Some 4)) eq_refl) as (_ & H3 & _).
  apply H3; [discriminate|]. exists ZeroDivisionError. reflexivity.
Defined.

(** ** One iteration of the loop *)

Lemma gather_run (api : Orchestrator) (scalers : list Scaler) (w : World) :
  gather api scalers w = (Ok tt, reconcile_all (map (fun s => (api, s)) scalers) w).
Proof.
  revert w. induction scalers as [|s rest IH]; intros w; [reflexivity|].
  cbn [gather map reconcile_all]. unfold bind.
  pose proof (reconcile_returns api s w) as Hok.
  destruct (_reconcile_scaler api s w) as [r w1]. cbn [fst snd] in *. subst r.
  apply IH.
Qed.


